(** * Timing-attack simulation (group-op-timing-attack/extra/timing-attack.py)

    A shallow embedding of the Python module and the properties of its
    timing model, key generator, recovery loop and verifier.

    Numbers.  Python integers are [Z].  Timings are modelled as exact
    rationals [Q], except in the module [Binary64], which runs the group
    operation on IEEE doubles for the property that rounding decides.

    Effects.  The module mutates two process-wide generators (numpy's
    [np.random] and Python's [random]) and raises exceptions.  Both are
    threaded through a state-and-exception monad [M] over a [World].

    The functions of [des-sbox-eval/des-sac.py] and [egcd] of
    [rsa-fails/common-modulus.py] follow in the modules [DesSac] and
    [CommonModulus]. *)

From Stdlib Require Import ZArith QArith Lia Lqa List PrimFloat Uint63.
From Equations Require Import Equations.
From stdpp Require Import base gmap list.

#[local] Open Scope Z_scope.

(** ** Exceptions and results *)

Inductive exn : Set :=
| KeyError
| IndexError
| ValueError
| ZeroDivisionError.

Inductive result (A : Type) : Type :=
| Ok (a : A)
| Raise (e : exn).

Arguments Ok {A} a.
Arguments Raise {A} e.

(** The two variants of the group operation. *)
Inductive variant : Set :=
| DoubleAndAdd
| SquareAndMul.

(** [primes]: the module-level table of moduli, keyed by key length. *)
Definition primes : gmap Z Z :=
  list_to_map
    [ (8, 61);
      (16, 53759);
      (32, 2675797811);
      (64, 8642890157798231327);
      (128, 249018405283997733407297959207515566297) ].

(** [class Device]: the attributes set by [__init__]. *)
Record Device : Type := mkDevice {
  p : Z;
  keylen : Z;
  mu : Q;
  sigma : Q;
  group_op : variant
}.

(** [class VictimDevice(Device)]: the base attributes and the secret. *)
Record VictimDevice : Type := mkVictim {
  base : Device;
  secret : list Z
}.

(** The three lines [VictimDevice.check] can print. *)
Inductive verdict : Set :=
| LOW
| PARTIAL
| FULL.

(** [a < b] on rationals, as a boolean. *)
Definition Qlt_bool (a b : Q) : bool := negb (Qle_bool b a).

(** Number of entries equal to 1, the bits on which the conditional
    sub-step runs. *)
Definition popcount (d : list Z) : nat :=
  length (filter (fun b => b = 1) d).

(** Sum of a sequence of samples, in drawing order. *)
Definition total (xs : list Q) : Q :=
  fold_left Qplus xs 0%Q.

(** ** The libraries the module calls

    numpy's legacy generator: [rng] is its state, [np_init s] the state
    installed by [np.random.seed(s)], [np_gauss] one standard normal
    draw and [np_uniform] one draw of [np.random.rand()].  Python's
    [random] module is a second, independent generator with state
    [pyrng]; [py_randint a b] is [random.randint(a, b)].  The
    development is parametric in them. *)
Class Generators : Type := {
  rng : Type;
  np_init : Z -> rng;
  np_gauss : rng -> Q * rng;
  np_uniform : rng -> Q * rng;
  pyrng : Type;
  py_randint : Z -> Z -> pyrng -> Z * pyrng
}.

Section Simulation.

Context {G : Generators}.

(** The process state.  [drawn] and [queries] are history variables:
    the samples returned so far by [np.random.normal], and the
    arguments of the calls to [AttackerDevice.sign], oldest first.
    No operation reads them. *)
Record World : Type := mkWorld {
  np : rng;
  py : pyrng;
  drawn : list Q;
  queries : list (Z * list Z)
}.

Definition M (A : Type) : Type := World -> result A * World.

Definition ret {A} (a : A) : M A := fun w => (Ok a, w).

Definition raise {A} (e : exn) : M A := fun w => (Raise e, w).

Definition bind {A B} (m : M A) (k : A -> M B) : M B :=
  fun w =>
    match m w with
    | (Ok a, w') => k a w'
    | (Raise e, w') => (Raise e, w')
    end.

Notation "'let*' x ':=' e 'in' k" := (bind e (fun x => k))
  (at level 10, x pattern, e at level 200, k at level 200).
Notation "e ';;' k" := (bind e (fun _ => k))
  (at level 100, k at level 200, right associativity).

(** [for i in range(n): s = body(i, s)] *)
Fixpoint for_range {S : Type} (n : nat) (body : nat -> S -> M S) (s : S) : M S :=
  match n with
  | O => ret s
  | S k => let* s' := for_range k body s in body k s'
  end.

(** [a % b] on integers: floor modulus, [ZeroDivisionError] on 0. *)
Definition py_mod (a b : Z) : M Z :=
  if decide (b = 0) then raise ZeroDivisionError else ret (a mod b).

(** [l[i]] for [0 <= i]: [IndexError] out of range. *)
Definition py_index {A} (l : list A) (i : nat) : M A :=
  match l !! i with
  | Some x => ret x
  | None => raise IndexError
  end.

(** [np.random.seed(s)]: the seed must lie in [0, 2**32 - 1]. *)
Definition np_random_seed (s : Z) : M unit :=
  fun w =>
    if decide (0 <= s < 2 ^ 32)
    then (Ok tt, mkWorld (np_init s) (py w) (drawn w) (queries w))
    else (Raise ValueError, w).

(** [np.random.normal(loc, scale)]: [loc + scale * gauss()], and
    [ValueError] on a negative scale. *)
Definition np_random_normal (loc scale : Q) : M Q :=
  fun w =>
    if Qle_bool 0 scale
    then
      let '(g, s') := np_gauss (np w) in
      let x := (loc + scale * g)%Q in
      (Ok x, mkWorld s' (py w) (drawn w ++ [x]) (queries w))
    else (Raise ValueError, w).

(** [np.random.rand()] *)
Definition np_random_rand : M Q :=
  fun w =>
    let '(u, s') := np_uniform (np w) in
    (Ok u, mkWorld s' (py w) (drawn w) (queries w)).

(** [random.randint(a, b)] *)
Definition random_randint (a b : Z) : M Z :=
  fun w =>
    let '(c, s') := py_randint a b (py w) in
    (Ok c, mkWorld (np w) s' (drawn w) (queries w)).

(** *** [Device] *)

(** [Device.__init__] *)
Definition Device_init (klen : Z) (mu sigma : Q) : M Device :=
  match primes !! klen with
  | None => raise KeyError
  | Some p => ret (mkDevice p klen mu sigma DoubleAndAdd)
  end.

(** One iteration of the loop shared by [double_and_add] and
    [square_and_mul]; [fixed] and [cond] are the two register updates
    before reduction modulo [self.p]. *)
Definition ladder_body (self : Device) (fixed cond : Z -> Z) (d : list Z)
    (i : nat) (st : Z * Q) : M (Z * Q) :=
  let '(res, delay) := st in
  let* res := py_mod (fixed res) (p self) in
  let* x := np_random_normal (mu self) (sigma self) in
  let delay := (delay + x)%Q in
  let* b := py_index d i in
  if decide (b = 1) then
    let* res := py_mod (cond res) (p self) in
    np_random_seed (res mod 2 ^ 32) ;;
    let* y := np_random_normal (mu self) (sigma self) in
    ret (res, (delay + y)%Q)
  else ret (res, delay).

(** The state [(res, delay)] after the first [k] iterations. *)
Definition ladder_upto (self : Device) (fixed cond : Z -> Z) (m : Z)
    (d : list Z) (k : nat) : M (Z * Q) :=
  np_random_seed (m mod 2 ^ 32) ;;
  for_range k (ladder_body self fixed cond d) (1, 0%Q).

Definition ladder (self : Device) (fixed cond : Z -> Z) (m : Z)
    (d : list Z) : M Q :=
  let* st := ladder_upto self fixed cond m d (length d) in
  ret (snd st).

(** [Device.double_and_add] *)
Definition double_and_add (self : Device) (m : Z) (d : list Z) : M Q :=
  ladder self (fun res => res * 2) (fun res => res + m) m d.

(** [Device.square_and_mul] *)
Definition square_and_mul (self : Device) (m : Z) (d : list Z) : M Q :=
  ladder self (fun res => res * res) (fun res => res * m) m d.

(** [self.group_op(m, d)] *)
Definition call_group_op (self : Device) (m : Z) (d : list Z) : M Q :=
  match group_op self with
  | DoubleAndAdd => double_and_add self m d
  | SquareAndMul => square_and_mul self m d
  end.

(** *** [AttackerDevice] *)

(** [AttackerDevice.sign]; the call is recorded in [queries] with the
    value the list [d] has at the time of the call. *)
Definition AttackerDevice_sign (self : Device) (c : Z) (d : list Z) : M Q :=
  (fun w => (Ok tt, mkWorld (np w) (py w) (drawn w) (queries w ++ [(c, d)]))) ;;
  call_group_op self c d.

(** *** [VictimDevice] *)

(** [VictimDevice.built_in_seed] *)
Definition built_in_seed : Z := 123312834.

(** [int(np.random.rand() <= 0.5)] *)
Definition coin : M Z :=
  let* u := np_random_rand in
  ret (if Qle_bool u (1 # 2) then 1 else 0).

(** [[int(np.random.rand() <= 0.5) for i in range(n)]] *)
Definition coins (n : nat) : M (list Z) :=
  for_range n (fun _ acc => let* b := coin in ret (acc ++ [b])) [].

(** [VictimDevice.__init__] *)
Definition VictimDevice_init (klen : Z) (mu sigma : Q) (secret_seed : Z)
    : M VictimDevice :=
  let* self := Device_init klen mu sigma in
  np_random_seed secret_seed ;;
  let* tl := coins (Z.to_nat (keylen self - 1)) in
  ret (mkVictim self (1 :: tl)).

(** [VictimDevice.sign] *)
Definition VictimDevice_sign (self : VictimDevice) (c : Z) : M Q :=
  call_group_op (base self) c (secret self).

(** [a / b] with an integer divisor: true division. *)
Definition py_truediv (a : Q) (b : Z) : M Q :=
  if decide (b = 0) then raise ZeroDivisionError
  else ret (a / inject_Z b)%Q.

(** [[int(self.secret[i] == d[i]) for i in range(n)]], summed. *)
Definition matches (s d : list Z) (n : nat) : M Z :=
  for_range n
    (fun i acc =>
       let* x := py_index s i in
       let* y := py_index d i in
       ret (acc + (if decide (x = y) then 1 else 0)))
    0.

(** [VictimDevice.check]; the result is the line it prints. *)
Definition check (self : VictimDevice) (d : list Z) : M verdict :=
  let n := keylen (base self) in
  let* k := matches (secret self) d (Z.to_nat n) in
  let* f := py_truediv (inject_Z k) n in
  if Qlt_bool f (3 # 4) then ret LOW
  else if Qlt_bool f 1 then ret PARTIAL
  else ret FULL.

(** *** [main] *)

(** [l[i] = x] for [0 <= i]: [IndexError] out of range. *)
Definition py_setitem {A} (l : list A) (i : nat) (x : A) : M (list A) :=
  if decide (i < length l)%nat then ret (<[i := x]> l) else raise IndexError.

(** The accumulators of one round:
    [sum0], [sum0_square], [sum1], [sum1_square]. *)
Record sums : Type := mkSums {
  sum0 : Q;
  sum0_square : Q;
  sum1 : Q;
  sum1_square : Q
}.

(** One pass of the inner loop [for j in range(N)]. *)
Definition trial (victim : VictimDevice) (attacker : Device) (klen : Z)
    (i : nat) (st : list Z * sums) : M (list Z * sums) :=
  let '(recovered, acc) := st in
  let* c := random_randint 1 (2 ^ klen) in
  let* t_vic := VictimDevice_sign victim c in
  let* recovered := py_setitem recovered i 0 in
  let* t_att0 := AttackerDevice_sign attacker c recovered in
  let sum0_square := (sum0_square acc + (t_vic - t_att0) ^ 2)%Q in
  let sum0 := (sum0 acc + (t_vic - t_att0))%Q in
  let* recovered := py_setitem recovered i 1 in
  let* t_att1 := AttackerDevice_sign attacker c recovered in
  let sum1_square := (sum1_square acc + (t_vic - t_att1) ^ 2)%Q in
  let sum1 := (sum1 acc + (t_vic - t_att1))%Q in
  ret (recovered, mkSums sum0 sum0_square sum1 sum1_square).

(** [recovered.append(0)] followed by the [N] trials of round [i]. *)
Definition trials (victim : VictimDevice) (attacker : Device) (N klen : Z)
    (i : nat) (recovered : list Z) : M (list Z * sums) :=
  for_range (Z.to_nat N)
    (fun _ => trial victim attacker klen i)
    (recovered ++ [0], mkSums 0 0 0 0).

(** [sum_square/N - (sum/N)**2] *)
Definition variance (sum sum_square : Q) (N : Z) : M Q :=
  let* a := py_truediv sum_square N in
  let* b := py_truediv sum N in
  ret (a - b ^ 2)%Q.

(** The bit chosen from the two variances. *)
Definition choose (var0 var1 : Q) : Z :=
  if Qlt_bool var0 var1 then 0 else 1.

(** One pass of the outer loop [for i in range(0, keylen)]. *)
Definition round (victim : VictimDevice) (attacker : Device) (N klen : Z)
    (i : nat) (recovered : list Z) : M (list Z) :=
  let* (recovered, acc) := trials victim attacker N klen i recovered in
  let* var0 := variance (sum0 acc) (sum0_square acc) N in
  let* var1 := variance (sum1 acc) (sum1_square acc) N in
  py_setitem recovered i (choose var0 var1).

(** The recovery loop of [main], from [recovered = []] on. *)
Definition recover (victim : VictimDevice) (attacker : Device) (N klen : Z)
    : M (list Z) :=
  for_range (Z.to_nat klen) (round victim attacker N klen) [].

(** The body of [main] as a function of its four constants; the
    result is the recovered list and the line printed by [check]. *)
Definition main_with (N klen : Z) (mu sigma : Q) : M (list Z * verdict) :=
  let* seed := random_randint 1 4294967295 in
  let* victim := VictimDevice_init klen mu sigma seed in
  let* attacker := Device_init klen mu sigma in
  let* recovered := recover victim attacker N klen in
  let* v := check victim recovered in
  ret (recovered, v).

(** [main] *)
Definition main : M (list Z * verdict) :=
  main_with 4000 64 1000 50.

(** A value [np.random.normal(loc, scale)] can return: [loc] plus
    [scale] times a draw of the generator from some state. *)
Definition sample_of (loc scale x : Q) : Prop :=
  exists s : rng, x = (loc + scale * fst (np_gauss s))%Q.

(** The register updates of the variant [self.group_op] selects. *)
Definition updates (v : variant) (m : Z) : (Z -> Z) * (Z -> Z) :=
  match v with
  | DoubleAndAdd => (fun res => res * 2, fun res => res + m)
  | SquareAndMul => (fun res => res * res, fun res => res * m)
  end.

(** [self.group_op(m, d)] stopped after the first [k] iterations of its
    loop: the state [(res, delay)] reached there. *)
Definition group_op_upto (self : Device) (m : Z) (d : list Z) (k : nat)
    : M (Z * Q) :=
  ladder_upto self (fst (updates (group_op self) m))
    (snd (updates (group_op self) m)) m d k.

(** A device on which the group operation runs to completion: the
    reduction [% self.p] is defined and numpy accepts [self.sigma]. *)
Definition runnable (self : Device) : Prop :=
  p self <> 0 /\ (0 <= sigma self)%Q.

(** The state [recovered] at the start of round [i] of [recover]. *)
Definition recover_upto (victim : VictimDevice) (attacker : Device)
    (N klen : Z) (i : nat) : M (list Z) :=
  for_range i (round victim attacker N klen) [].

(** The two attacker queries of a trial with challenge [c] in a round
    that starts from the finalized bits [r]. *)
Definition trial_queries (r : list Z) (c : Z) : list (Z * list Z) :=
  [(c, r ++ [0]); (c, r ++ [1])].

(** [sum_square/N - (sum/N)**2] as a rational. *)
Definition var_of (sum sum_square : Q) (N : Z) : Q :=
  (sum_square / inject_Z N - (sum / inject_Z N) ^ 2)%Q.

(** Number of positions [i < n] at which [s] and [d] hold the same
    value. *)
Definition agreeing (s d : list Z) (n : nat) : nat :=
  length (filter (fun i => s !! i = d !! i) (seq 0 n)).

(** A computation whose result, and whose effect on numpy's generator,
    depend on the world only through the state of numpy's generator. *)
Definition np_determined {A} (m : M A) : Prop :=
  forall w1 w2 : World,
    np w1 = np w2 ->
    fst (m w1) = fst (m w2) /\ np (snd (m w1)) = np (snd (m w2)).

(** A computation whose result, whose effect on numpy's generator and
    whose sequence of samples depend on the world only through the state
    of numpy's generator: from two worlds with the same generator state
    it draws the same samples [xs]. *)
Definition draws_determined {A} (m : M A) : Prop :=
  forall w1 w2 : World,
    np w1 = np w2 ->
    exists xs : list Q,
      fst (m w1) = fst (m w2)
      /\ np (snd (m w1)) = np (snd (m w2))
      /\ drawn (snd (m w1)) = drawn w1 ++ xs
      /\ drawn (snd (m w2)) = drawn w2 ++ xs.

(** A computation that only ever extends the history of samples. *)
Definition extends_drawn {A} (m : M A) : Prop :=
  forall w : World, drawn w `prefix_of` drawn (snd (m w)).

End Simulation.

(** ** A concrete pair of generators

    Small linear congruential generators, used to run the model on
    concrete inputs. *)

Definition lcg (s : Z) : Z := (s * 1103515245 + 12345) mod 2 ^ 31.

Definition toy : Generators := {|
  rng := Z;
  np_init := fun s => s;
  np_gauss := fun s => ((inject_Z (s mod 7 - 3) / 2)%Q, lcg s);
  np_uniform := fun s => ((inject_Z (s mod 8) / 8)%Q, lcg s);
  pyrng := Z;
  py_randint := fun a b s => (a + s mod (b - a + 1), lcg s)
|}.

(** A world in which nothing has been drawn or queried yet. *)
Definition toy_world : @World toy := @mkWorld toy 1 1 [] [].

(** The device [Device(8, 1000, 0)] builds, and its noisy sibling. *)
Definition quiet8 : Device := mkDevice 61 8 1000 0 DoubleAndAdd.
Definition noisy8 : Device := mkDevice 61 8 1000 50 DoubleAndAdd.

(** The world an earlier call, with another challenge and another
    exponent, leaves behind. *)
Definition toy_world_later : @World toy :=
  snd (call_group_op noisy8 9 [1; 1; 0; 1] toy_world).

(** A victim over [quiet8] with an 8-bit secret. *)
Definition victim8 : VictimDevice := mkVictim quiet8 [1; 0; 1; 1; 0; 0; 1; 0].

(** ** The other scripts of the repository

    [des-sbox-eval/des-sac.py] and the function [egcd] of
    [rsa-fails/common-modulus.py].  They run no generator and keep no
    state: a function returns a [result]. *)

(** [l[k]] for an integer [k]: a negative index counts from the end,
    [IndexError] outside [-len(l), len(l) - 1]. *)
Definition py_getitem {A} (l : list A) (k : Z) : result A :=
  let n := Z.of_nat (length l) in
  let j := if decide (k < 0) then k + n else k in
  if decide (0 <= j < n) then
    match l !! Z.to_nat j with
    | Some x => Ok x
    | None => Raise IndexError
    end
  else Raise IndexError.

Module DesSac.

(** [sbox]: the eight DES substitution boxes, 64 entries each. *)
Definition sbox : list (list Z) := [
  [
    14;  0;  4; 15; 13;  7;  1;  4;  2; 14; 15;  2; 11; 13;  8;  1;
     3; 10; 10;  6;  6; 12; 12; 11;  5;  9;  9;  5;  0;  3;  7;  8;
     4; 15;  1; 12; 14;  8;  8;  2; 13;  4;  6;  9;  2;  1; 11;  7;
    15;  5; 12; 11;  9;  3;  7; 14;  3; 10; 10;  0;  5;  6;  0; 13 ];
  [
    15;  3;  1; 13;  8;  4; 14;  7;  6; 15; 11;  2;  3;  8;  4; 14;
     9; 12;  7;  0;  2;  1; 13; 10; 12;  6;  0;  9;  5; 11; 10;  5;
     0; 13; 14;  8;  7; 10; 11;  1; 10;  3;  4; 15; 13;  4;  1;  2;
     5; 11;  8;  6; 12;  7;  6; 12;  9;  0;  3;  5;  2; 14; 15;  9 ];
  [
    10; 13;  0;  7;  9;  0; 14;  9;  6;  3;  3;  4; 15;  6;  5; 10;
     1;  2; 13;  8; 12;  5;  7; 14; 11; 12;  4; 11;  2; 15;  8;  1;
    13;  1;  6; 10;  4; 13;  9;  0;  8;  6; 15;  9;  3;  8;  0;  7;
    11;  4;  1; 15;  2; 14; 12;  3;  5; 11; 10;  5; 14;  2;  7; 12 ];
  [
     7; 13; 13;  8; 14; 11;  3;  5;  0;  6;  6; 15;  9;  0; 10;  3;
     1;  4;  2;  7;  8;  2;  5; 12; 11;  1; 12; 10;  4; 14; 15;  9;
    10;  3;  6; 15;  9;  0;  0;  6; 12; 10; 11;  1;  7; 13; 13;  8;
    15;  9;  1;  4;  3;  5; 14; 11;  5; 12;  2;  7;  8;  2;  4; 14 ];
  [
     2; 14; 12; 11;  4;  2;  1; 12;  7;  4; 10;  7; 11; 13;  6;  1;
     8;  5;  5;  0;  3; 15; 15; 10; 13;  3;  0;  9; 14;  8;  9;  6;
     4; 11;  2;  8;  1; 12; 11;  7; 10;  1; 13; 14;  7;  2;  8; 13;
    15;  6;  9; 15; 12;  0;  5;  9;  6; 10;  3;  4;  0;  5; 14;  3 ];
  [
    12; 10;  1; 15; 10;  4; 15;  2;  9;  7;  2; 12;  6;  9;  8;  5;
     0;  6; 13;  1;  3; 13;  4; 14; 14;  0;  7; 11;  5;  3; 11;  8;
     9;  4; 14;  3; 15;  2;  5; 12;  2;  9;  8;  5; 12; 15;  3; 10;
     7; 11;  0; 14;  4;  1; 10;  7;  1;  6; 13;  0; 11;  8;  6; 13 ];
  [
     4; 13; 11;  0;  2; 11; 14;  7; 15;  4;  0;  9;  8;  1; 13; 10;
     3; 14; 12;  3;  9;  5;  7; 12;  5;  2; 10; 15;  6;  8;  1;  6;
     1;  6;  4; 11; 11; 13; 13;  8; 12;  1;  3;  4;  7; 10; 14;  7;
    10;  9; 15;  5;  6;  0;  8; 15;  0; 14;  5;  2;  9;  3;  2; 12 ];
  [
    13;  1;  2; 15;  8; 13;  4;  8;  6; 10; 15;  3; 11;  7;  1;  4;
    10; 12;  9;  5;  3;  6; 14; 11;  5;  0;  0; 14; 12;  9;  7;  2;
     7;  2; 11;  1;  4; 14;  1;  7;  9;  4; 12; 10; 14;  8;  2; 13;
     0; 15;  6; 12; 10;  9; 13;  0; 15;  3;  3;  5;  5;  6;  8; 11 ]
].

(** The index [row * 16 + col] that [apply_box] reads. *)
Definition box_index (x : Z) : Z :=
  let row := Z.lor (Z.shiftr (Z.land x 32) 4) (Z.land x 1) in
  let col := Z.shiftr (Z.land x 30) 1 in
  row * 16 + col.

(** [apply_box] *)
Definition apply_box (box : list Z) (x : Z) : result Z :=
  py_getitem box (box_index x).

(** The loop of [bit_diff]: [(count, r)] after [n] passes. *)
Definition bit_diff_loop (n : nat) (r : Z) : Z * Z :=
  Nat.iter n
    (fun st : Z * Z =>
       let '(count, r) := st in
       ((if decide (Z.land r 1 <> 0) then count + 1 else count),
        Z.shiftr r 1))
    (0, r).

(** [bit_diff]: [count / 4.0]; on these five values [round(., 2)]
    changes nothing. *)
Definition bit_diff (a b : Z) : Q :=
  (inject_Z (fst (bit_diff_loop 4 (Z.lxor a b))) / 4)%Q.

(** The list [diffs] that [test_x] builds over [i = 0 .. n - 1]. *)
Fixpoint diffs (box : list Z) (x y : Z) (n : nat) : result (list Q) :=
  match n with
  | O => Ok []
  | S i =>
      match diffs box x y i with
      | Raise e => Raise e
      | Ok ds =>
          match apply_box box (Z.lxor x (Z.shiftl 1 (Z.of_nat i))) with
          | Raise e => Raise e
          | Ok y1 => Ok (ds ++ [bit_diff y y1])
          end
      end
  end.

(** [test_x] *)
Definition test_x (box : list Z) (x : Z) : result Q :=
  match apply_box box x with
  | Raise e => Raise e
  | Ok y =>
      match diffs box x y 6 with
      | Raise e => Raise e
      | Ok ds => Ok (total ds / 6)%Q
      end
  end.

(** The running sum [tot] of [box_sac] after [x = 0 .. n - 1]. *)
Fixpoint sac_sum (box : list Z) (n : nat) : result Q :=
  match n with
  | O => Ok 0%Q
  | S x =>
      match sac_sum box x with
      | Raise e => Raise e
      | Ok tot =>
          match test_x box (Z.of_nat x) with
          | Raise e => Raise e
          | Ok t => Ok (tot + t)%Q
          end
      end
  end.

(** [box_sac] *)
Definition box_sac (box : list Z) : result Q :=
  match sac_sum box 64 with
  | Raise e => Raise e
  | Ok tot => Ok (tot / 64)%Q
  end.

(** [get_box] over a table [tbl] of boxes; the module calls it with
    [sbox]. *)
Definition get_box_of {A} (tbl : list A) (idx : Z) : result A :=
  let num_boxes := Z.of_nat (length tbl) in
  let idx := if decide (idx >= num_boxes) then num_boxes - 1 else idx in
  py_getitem tbl idx.

(** [get_box] *)
Definition get_box (idx : Z) : result (list Z) := get_box_of sbox idx.

(** [box_sac_by_index] *)
Definition box_sac_by_index (idx : Z) : result Q :=
  match get_box idx with
  | Raise e => Raise e
  | Ok box => box_sac box
  end.

End DesSac.

Module CommonModulus.

(** [egcd] *)
Equations? egcd (a b : Z) : Z * Z * Z by wf (Z.abs_nat a) lt :=
  egcd a b with decide (a = 0) := {
    | left _ => (b, 0, 1)
    | right _ =>
        match egcd (b mod a) a with
        | (g, y, x) => (g, x - (b / a) * y, y)
        end
  }.
Proof.
  pose proof (Z.mod_bound_or b a ltac:(done)). lia.
Qed.

End CommonModulus.

(** ** The group operation on IEEE doubles

    The timings above are exact rationals.  The interpreter computes
    them in binary64: [np.random.normal] returns a double and
    [delay + ...] is a double addition, rounded at every step.  This
    module repeats the group operation with Rocq's primitive [float],
    which is binary64, for the one property that depends on rounding. *)

(** numpy's generator with draws in binary64. *)
Class Generator64 : Type := {
  rng64 : Type;
  np_init64 : Z -> rng64;
  np_gauss64 : rng64 -> float * rng64
}.

Module Binary64.

(** [class Device] with [mu] and [sigma] as doubles. *)
Record Device : Type := mkDevice {
  p : Z;
  keylen : Z;
  mu : float;
  sigma : float;
  group_op : variant
}.

Section Model.

Context {F : Generator64}.

(** The state of numpy's generator and the samples drawn so far. *)
Record World : Type := mkWorld {
  np : rng64;
  drawn : list float
}.

Definition M (A : Type) : Type := World -> result A * World.

Definition ret {A} (a : A) : M A := fun w => (Ok a, w).

Definition raise {A} (e : exn) : M A := fun w => (Raise e, w).

Definition bind {A B} (m : M A) (k : A -> M B) : M B :=
  fun w =>
    match m w with
    | (Ok a, w') => k a w'
    | (Raise e, w') => (Raise e, w')
    end.

Notation "'let*' x ':=' e 'in' k" := (bind e (fun x => k))
  (at level 10, x pattern, e at level 200, k at level 200).
Notation "e ';;' k" := (bind e (fun _ => k))
  (at level 100, k at level 200, right associativity).

(** [for i in range(n): s = body(i, s)] *)
Fixpoint for_range {S : Type} (n : nat) (body : nat -> S -> M S) (s : S) : M S :=
  match n with
  | O => ret s
  | S k => let* s' := for_range k body s in body k s'
  end.

(** [a % b] on integers. *)
Definition py_mod (a b : Z) : M Z :=
  if decide (b = 0) then raise ZeroDivisionError else ret (a mod b).

(** [l[i]] for [0 <= i]. *)
Definition py_index {A} (l : list A) (i : nat) : M A :=
  match l !! i with
  | Some x => ret x
  | None => raise IndexError
  end.

(** [np.random.seed(s)] *)
Definition np_random_seed (s : Z) : M unit :=
  fun w =>
    if decide (0 <= s < 2 ^ 32)
    then (Ok tt, mkWorld (np_init64 s) (drawn w))
    else (Raise ValueError, w).

(** [np.random.normal(loc, scale)]: the double [loc + scale * gauss()],
    and [ValueError] on a negative scale. *)
Definition np_random_normal (loc scale : float) : M float :=
  fun w =>
    if PrimFloat.ltb scale 0
    then (Raise ValueError, w)
    else
      let '(g, s') := np_gauss64 (np w) in
      let x := (loc + scale * g)%float in
      (Ok x, mkWorld s' (drawn w ++ [x])).

(** One iteration of the loop of [double_and_add] and
    [square_and_mul]. *)
Definition ladder_body (self : Device) (fixed cond : Z -> Z) (d : list Z)
    (i : nat) (st : Z * float) : M (Z * float) :=
  let '(res, delay) := st in
  let* res := py_mod (fixed res) (p self) in
  let* x := np_random_normal (mu self) (sigma self) in
  let delay := (delay + x)%float in
  let* b := py_index d i in
  if decide (b = 1) then
    let* res := py_mod (cond res) (p self) in
    np_random_seed (res mod 2 ^ 32) ;;
    let* y := np_random_normal (mu self) (sigma self) in
    ret (res, (delay + y)%float)
  else ret (res, delay).

Definition ladder (self : Device) (fixed cond : Z -> Z) (m : Z)
    (d : list Z) : M float :=
  np_random_seed (m mod 2 ^ 32) ;;
  let* st := for_range (length d) (ladder_body self fixed cond d) (1, 0%float) in
  ret (snd st).

(** [Device.double_and_add] *)
Definition double_and_add (self : Device) (m : Z) (d : list Z) : M float :=
  ladder self (fun res => res * 2) (fun res => res + m) m d.

(** [Device.square_and_mul] *)
Definition square_and_mul (self : Device) (m : Z) (d : list Z) : M float :=
  ladder self (fun res => res * res) (fun res => res * m) m d.

(** [self.group_op(m, d)] *)
Definition call_group_op (self : Device) (m : Z) (d : list Z) : M float :=
  match group_op self with
  | DoubleAndAdd => double_and_add self m d
  | SquareAndMul => square_and_mul self m d
  end.

End Model.

(** [0 + x + x + ... + x], [n] additions from left to right. *)
Definition repeated_sum (x : float) (n : nat) : float :=
  fold_left PrimFloat.add (replicate n x) 0%float.

End Binary64.

(** A generator with three draws, for concrete runs in binary64. *)
Definition toy64 : Generator64 := {|
  rng64 := Z;
  np_init64 := fun s => s;
  np_gauss64 := fun s =>
    (if decide (s mod 3 = 0) then (-1.5)%float
     else if decide (s mod 3 = 1) then 0.25%float
     else 1%float, lcg s)
|}.

Definition toy_world64 : @Binary64.World toy64 := @Binary64.mkWorld toy64 1 [].

(** The double nearest to 0.1, Python's [0.1]. *)
Definition tenth : float := 0x1.999999999999ap-4%float.

(** ** Vocabulary of the further properties *)

(** The number a bit vector spells, most significant bit first; an
    entry other than 1 counts as 0, as in [if d[i] == 1]. *)
Definition bits_value (d : list Z) : Z :=
  fold_left (fun acc b => 2 * acc + (if decide (b = 1) then 1 else 0)) d 0.

(** ** Properties *)

Section Properties.

Context {G : Generators}.

Lemma popcount_app (d1 d2 : list Z) :
  popcount (d1 ++ d2) = (popcount d1 + popcount d2)%nat.
Proof. unfold popcount. by rewrite filter_app, length_app. Qed.

Lemma popcount_take_S (d : list Z) (k : nat) (b : Z) :
  d !! k = Some b ->
  popcount (take (S k) d)
  = (popcount (take k d) + (if decide (b = 1%Z) then 1 else 0))%nat.
Proof.
  intros Hb. rewrite (take_S_r _ _ _ Hb), popcount_app. f_equal.
  unfold popcount. rewrite filter_cons, filter_nil.
  by destruct (decide (b = 1)).
Qed.

Lemma total_snoc (xs : list Q) (x : Q) : total (xs ++ [x]) = (total xs + x)%Q.
Proof. unfold total. by rewrite fold_left_app. Qed.

Lemma total_snoc2 (xs : list Q) (x y : Q) :
  total (xs ++ [x; y]) = (total xs + x + y)%Q.
Proof. unfold total. by rewrite fold_left_app. Qed.

Lemma mod_seed_ok (r : Z) : 0 <= r mod 2 ^ 32 < 2 ^ 32.
Proof. apply Z.mod_pos_bound. lia. Qed.

(** One iteration on an in-range index, for a device whose modulus is
    not 0 and whose [sigma] is not negative: it returns, draws one
    sample and a second one exactly when the bit is 1, and touches
    neither Python's generator nor the query history. *)
Lemma ladder_body_spec (self : Device) (fixed cond : Z -> Z) (d : list Z)
    (i : nat) (b res : Z) (xs : list Q) (w : World) :
  p self <> 0 ->
  Qle_bool 0 (sigma self) = true ->
  d !! i = Some b ->
  exists res' ys w',
    ladder_body self fixed cond d i (res, total xs) w
      = (Ok (res', total (xs ++ ys)), w')
    /\ drawn w' = drawn w ++ ys
    /\ length ys = (1 + (if decide (b = 1%Z) then 1 else 0))%nat
    /\ Forall (sample_of (mu self) (sigma self)) ys
    /\ py w' = py w
    /\ queries w' = queries w.
Proof.
  intros Hp Hs Hb.
  unfold ladder_body, bind, py_mod, py_index, np_random_normal,
    np_random_seed, ret, raise.
  destruct (decide (p self = 0)) as [|_]; [done|].
  rewrite Hs, Hb. cbn.
  destruct (np_gauss (np w)) as [g s1] eqn:Hg. cbn.
  destruct (decide (b = 1)) as [->|Hne].
  - destruct (decide (0 <= cond (fixed res mod p self) mod p self mod 2 ^ 32
                      < 2 ^ 32)) as [_|Hbad];
      [|destruct Hbad; apply mod_seed_ok].
    cbn.
    destruct (np_gauss (np_init _)) as [g2 s2] eqn:Hg2. cbn.
    eexists _, [_; _], _. split; [by rewrite total_snoc2|]. cbn.
    split_and!; try done.
    + by rewrite <- (assoc_L (++)).
    + repeat constructor.
      * exists (np w). by rewrite Hg.
      * eexists. by rewrite Hg2.
  - eexists _, [_], _. split; [by rewrite total_snoc|]. cbn.
    split_and!; try done.
    repeat constructor. exists (np w). by rewrite Hg.
Qed.

(** The loop after [k <= len(d)] iterations, from any state of the
    world: the accumulated delay is the sum of the samples drawn, and
    [k + popcount(d[:k])] samples were drawn. *)
Lemma ladder_loop_spec (self : Device) (fixed cond : Z -> Z) (d : list Z)
    (k : nat) (w : World) :
  p self <> 0 ->
  Qle_bool 0 (sigma self) = true ->
  (k <= length d)%nat ->
  exists res xs w',
    for_range k (ladder_body self fixed cond d) (1, 0%Q) w
      = (Ok (res, total xs), w')
    /\ drawn w' = drawn w ++ xs
    /\ length xs = (k + popcount (take k d))%nat
    /\ Forall (sample_of (mu self) (sigma self)) xs
    /\ py w' = py w
    /\ queries w' = queries w.
Proof.
  intros Hp Hs. induction k as [|k IH]; intros Hk.
  - exists 1, [], w. rewrite app_nil_r. by repeat split.
  - destruct IH as (res & xs & w1 & Hrun & Hd & Hlen & Hall & Hpy & Hq); [lia|].
    destruct (lookup_lt_is_Some_2 d k) as [b Hb]; [lia|].
    destruct (ladder_body_spec self fixed cond d k b res xs w1 Hp Hs Hb)
      as (res' & ys & w2 & Hstep & Hd2 & Hlen2 & Hall2 & Hpy2 & Hq2).
    exists res', (xs ++ ys), w2. cbn [for_range]. unfold bind at 1.
    rewrite Hrun, Hstep. split_and!; try done.
    + by rewrite Hd2, Hd, (assoc_L (++)).
    + rewrite length_app, Hlen, Hlen2, (popcount_take_S _ _ _ Hb). lia.
    + by apply Forall_app.
    + congruence.
    + congruence.
Qed.

(** The whole call, for either pair of register updates. *)
Lemma ladder_spec (self : Device) (fixed cond : Z -> Z) (m : Z) (d : list Z)
    (w : World) :
  p self <> 0 ->
  Qle_bool 0 (sigma self) = true ->
  exists xs w',
    ladder self fixed cond m d w = (Ok (total xs), w')
    /\ drawn w' = drawn w ++ xs
    /\ length xs = (length d + popcount d)%nat
    /\ Forall (sample_of (mu self) (sigma self)) xs
    /\ py w' = py w
    /\ queries w' = queries w.
Proof.
  intros Hp Hs. unfold ladder, ladder_upto, bind at 1 2, np_random_seed.
  destruct (decide (0 <= m mod 2 ^ 32 < 2 ^ 32)) as [_|Hbad];
    [|destruct Hbad; apply mod_seed_ok].
  destruct (ladder_loop_spec self fixed cond d (length d)
              (mkWorld (np_init (m mod 2 ^ 32)) (py w) (drawn w) (queries w))
              Hp Hs (le_n _))
    as (res & xs & w' & Hrun & Hd & Hlen & Hall & Hpy & Hq).
  rewrite Hrun. exists xs, w'. rewrite firstn_all in Hlen. by split_and!.
Qed.

Lemma call_group_op_spec (self : Device) (m : Z) (d : list Z) (w : World) :
  p self <> 0 ->
  Qle_bool 0 (sigma self) = true ->
  exists xs w',
    call_group_op self m d w = (Ok (total xs), w')
    /\ drawn w' = drawn w ++ xs
    /\ length xs = (length d + popcount d)%nat
    /\ Forall (sample_of (mu self) (sigma self)) xs
    /\ py w' = py w
    /\ queries w' = queries w.
Proof.
  intros Hp Hs. unfold call_group_op, double_and_add, square_and_mul.
  destruct (group_op self); by apply ladder_spec.
Qed.

Lemma total_nonneg (xs : list Q) :
  Forall (fun x => 0 <= x)%Q xs -> (0 <= total xs)%Q.
Proof.
  induction xs as [|x xs IH] using rev_ind; intros Hall.
  - done.
  - rewrite Forall_app, Forall_singleton in Hall. destruct Hall as [Hxs Hx].
    rewrite total_snoc. specialize (IH Hxs). lra.
Qed.

(** *** Dependence on the world *)

Lemma np_determined_ret {A} (a : A) : np_determined (ret a).
Proof. by intros w1 w2 H. Qed.

Lemma np_determined_raise {A} (e : exn) : np_determined (raise (A := A) e).
Proof. by intros w1 w2 H. Qed.

Lemma np_determined_bind {A B} (m : M A) (k : A -> M B) :
  np_determined m -> (forall a, np_determined (k a)) ->
  np_determined (bind m k).
Proof.
  intros Hm Hk w1 w2 H. unfold bind.
  destruct (Hm w1 w2 H) as [Hr Hn].
  destruct (m w1) as [[a1|e1] v1], (m w2) as [[a2|e2] v2];
    cbn in Hr, Hn; simplify_eq; [by apply Hk | done].
Qed.

Lemma np_determined_for_range {S} (body : nat -> S -> M S) (n : nat) (s : S) :
  (forall i s', np_determined (body i s')) ->
  np_determined (for_range n body s).
Proof.
  intros Hb. induction n as [|n IH]; cbn [for_range].
  - apply np_determined_ret.
  - apply np_determined_bind; [exact IH | intros; apply Hb].
Qed.

Lemma np_determined_py_mod (a b : Z) : np_determined (py_mod a b).
Proof.
  unfold py_mod. destruct (decide (b = 0));
    [apply np_determined_raise | apply np_determined_ret].
Qed.

Lemma np_determined_py_index {A} (l : list A) (i : nat) :
  np_determined (py_index l i).
Proof.
  unfold py_index. destruct (l !! i);
    [apply np_determined_ret | apply np_determined_raise].
Qed.

Lemma np_determined_seed (s : Z) : np_determined (np_random_seed s).
Proof.
  intros w1 w2 H. unfold np_random_seed.
  by destruct (decide (0 <= s < 2 ^ 32)).
Qed.

Lemma np_determined_normal (loc scale : Q) :
  np_determined (np_random_normal loc scale).
Proof.
  intros w1 w2 H. unfold np_random_normal. rewrite H.
  destruct (Qle_bool 0 scale); [|done].
  by destruct (np_gauss (np w2)).
Qed.

Lemma np_determined_ladder_body (self : Device) (fixed cond : Z -> Z)
    (d : list Z) (i : nat) (st : Z * Q) :
  np_determined (ladder_body self fixed cond d i st).
Proof.
  destruct st as [res delay]. unfold ladder_body.
  apply np_determined_bind; [apply np_determined_py_mod | intros r].
  apply np_determined_bind; [apply np_determined_normal | intros x].
  apply np_determined_bind; [apply np_determined_py_index | intros b].
  destruct (decide (b = 1)); [|apply np_determined_ret].
  apply np_determined_bind; [apply np_determined_py_mod | intros r'].
  apply np_determined_bind; [apply np_determined_seed | intros _].
  apply np_determined_bind; [apply np_determined_normal | intros y].
  apply np_determined_ret.
Qed.

(** The call reseeds before it draws: the state it reaches after [k]
    iterations, and what it returns, are the same from any two worlds. *)
Lemma ladder_upto_entry_independent (self : Device) (fixed cond : Z -> Z)
    (m : Z) (d : list Z) (k : nat) (w1 w2 : World) :
  fst (ladder_upto self fixed cond m d k w1)
  = fst (ladder_upto self fixed cond m d k w2).
Proof.
  unfold ladder_upto, bind, np_random_seed.
  destruct (decide (0 <= m mod 2 ^ 32 < 2 ^ 32)) as [_|Hbad];
    [|destruct Hbad; apply mod_seed_ok].
  apply np_determined_for_range; [|done].
  apply np_determined_ladder_body.
Qed.

Lemma ladder_entry_independent (self : Device) (fixed cond : Z -> Z) (m : Z)
    (d : list Z) (w1 w2 : World) :
  fst (ladder self fixed cond m d w1) = fst (ladder self fixed cond m d w2).
Proof.
  unfold ladder, bind.
  pose proof (ladder_upto_entry_independent self fixed cond m d (length d)
                w1 w2) as Hr.
  destruct (ladder_upto _ _ _ _ _ _ w1) as [[a1|e1] u1],
           (ladder_upto _ _ _ _ _ _ w2) as [[a2|e2] u2];
    cbn in Hr; by simplify_eq.
Qed.

Lemma call_group_op_entry_independent (self : Device) (m : Z) (d : list Z)
    (w1 w2 : World) :
  fst (call_group_op self m d w1) = fst (call_group_op self m d w2).
Proof.
  unfold call_group_op, double_and_add, square_and_mul.
  destruct (group_op self); apply ladder_entry_independent.
Qed.

(** C6. What a [sign] call returns (a timing or an exception) is the
    same in any two worlds: it does not depend on earlier calls, on the
    state of either generator at entry, or on the histories. *)
Theorem C6_sign_depends_on_arguments_only (attacker : Device)
    (victim : VictimDevice) (c : Z) (d : list Z) (w1 w2 : World) :
  fst (AttackerDevice_sign attacker c d w1)
  = fst (AttackerDevice_sign attacker c d w2)
  /\ fst (VictimDevice_sign victim c w1) = fst (VictimDevice_sign victim c w2).
Proof.
  split.
  - unfold AttackerDevice_sign, bind. apply call_group_op_entry_independent.
  - apply call_group_op_entry_independent.
Qed.

(** *** Prefixes of a run *)

Lemma for_range_ext {S} (body1 body2 : nat -> S -> M S) (k : nat) :
  (forall i s w, (i < k)%nat -> body1 i s w = body2 i s w) ->
  forall s w, for_range k body1 s w = for_range k body2 s w.
Proof.
  induction k as [|k IH]; intros Hb s w; [done|].
  cbn [for_range]. unfold bind. rewrite IH by (intros; apply Hb; lia).
  destruct (for_range k body2 s w) as [[s'|e] w']; [|done].
  apply Hb. lia.
Qed.

Lemma ladder_body_agree (self : Device) (fixed cond : Z -> Z)
    (d1 d2 : list Z) (i : nat) (st : Z * Q) (w : World) :
  d1 !! i = d2 !! i ->
  ladder_body self fixed cond d1 i st w = ladder_body self fixed cond d2 i st w.
Proof.
  intros H. destruct st as [res delay].
  unfold ladder_body, bind, py_index. by rewrite H.
Qed.

Lemma extends_drawn_bind {A B} (m : M A) (k : A -> M B) :
  extends_drawn m -> (forall a, extends_drawn (k a)) ->
  extends_drawn (bind m k).
Proof.
  intros Hm Hk w. unfold bind. specialize (Hm w).
  destruct (m w) as [[a|e] w']; cbn in Hm; [|done].
  etrans; [exact Hm | apply Hk].
Qed.

Lemma extends_drawn_pure {A} (m : M A) :
  (forall w, drawn (snd (m w)) = drawn w) -> extends_drawn m.
Proof. intros H w. by rewrite H. Qed.

Lemma extends_drawn_normal (loc scale : Q) :
  extends_drawn (np_random_normal loc scale).
Proof.
  intros w. unfold np_random_normal.
  destruct (Qle_bool 0 scale); [|done].
  destruct (np_gauss (np w)). cbn. by apply prefix_app_r.
Qed.

Lemma extends_drawn_ladder_body (self : Device) (fixed cond : Z -> Z)
    (d : list Z) (i : nat) (st : Z * Q) :
  extends_drawn (ladder_body self fixed cond d i st).
Proof.
  destruct st as [res delay]. unfold ladder_body.
  apply extends_drawn_bind.
  { apply extends_drawn_pure. intros w. unfold py_mod. by destruct (decide _). }
  intros r. apply extends_drawn_bind; [apply extends_drawn_normal | intros x].
  apply extends_drawn_bind.
  { apply extends_drawn_pure. intros w. unfold py_index. by destruct (d !! i). }
  intros b. destruct (decide (b = 1)); [|by apply extends_drawn_pure].
  apply extends_drawn_bind.
  { apply extends_drawn_pure. intros w. unfold py_mod. by destruct (decide _). }
  intros r'. apply extends_drawn_bind.
  { apply extends_drawn_pure. intros w. unfold np_random_seed.
    by destruct (decide _). }
  intros _. apply extends_drawn_bind; [apply extends_drawn_normal | intros y].
  by apply extends_drawn_pure.
Qed.

(** What the first [k] iterations have drawn is a prefix of what the
    first [n >= k] iterations have drawn. *)
Lemma for_range_drawn_mono {S} (body : nat -> S -> M S) (k n : nat) (s : S)
    (w : World) :
  (forall i s', extends_drawn (body i s')) ->
  (k <= n)%nat ->
  drawn (snd (for_range k body s w)) `prefix_of`
    drawn (snd (for_range n body s w)).
Proof.
  intros Hb Hkn. induction Hkn as [|n Hkn IH]; [done|].
  etrans; [exact IH|]. cbn [for_range]. unfold bind.
  destruct (for_range n body s w) as [[s'|e] w']; [apply Hb | done].
Qed.

Lemma call_group_op_upto (self : Device) (m : Z) (d : list Z) (w : World) :
  call_group_op self m d w
  = bind (group_op_upto self m d (length d)) (fun st => ret (snd st)) w.
Proof.
  unfold call_group_op, group_op_upto, double_and_add, square_and_mul, ladder.
  by destruct (group_op self).
Qed.

Lemma group_op_upto_drawn_prefix (self : Device) (m : Z) (d : list Z)
    (k : nat) (w : World) :
  (k <= length d)%nat ->
  drawn (snd (group_op_upto self m d k w)) `prefix_of`
    drawn (snd (call_group_op self m d w)).
Proof.
  intros Hk. rewrite call_group_op_upto.
  trans (drawn (snd (group_op_upto self m d (length d) w))).
  - unfold group_op_upto, ladder_upto, bind, np_random_seed.
    destruct (decide (0 <= m mod 2 ^ 32 < 2 ^ 32)); [|done].
    apply for_range_drawn_mono; [|done].
    intros; apply extends_drawn_ladder_body.
  - unfold bind.
    by destruct (group_op_upto self m d (length d) w) as [[st|e] w'].
Qed.

Lemma draws_determined_pure {A} (m : M A) :
  (forall w, snd (m w) = w) -> (forall w1 w2, fst (m w1) = fst (m w2)) ->
  draws_determined m.
Proof.
  intros Hw Hr w1 w2 H. exists []. rewrite !Hw, !app_nil_r. by split_and!.
Qed.

Lemma draws_determined_bind {A B} (m : M A) (k : A -> M B) :
  draws_determined m -> (forall a, draws_determined (k a)) ->
  draws_determined (bind m k).
Proof.
  intros Hm Hk w1 w2 H. unfold bind.
  destruct (Hm w1 w2 H) as (xs & Hr & Hn & Hd1 & Hd2).
  destruct (m w1) as [[a1|e1] v1], (m w2) as [[a2|e2] v2];
    cbn in Hr, Hn, Hd1, Hd2; simplify_eq.
  - destruct (Hk a2 v1 v2 Hn) as (ys & Hr' & Hn' & Hd1' & Hd2').
    exists (xs ++ ys). rewrite Hd1', Hd2', Hd1, Hd2, !(assoc_L (++)).
    by split_and!.
  - by exists xs.
Qed.

Lemma draws_determined_for_range {S} (body : nat -> S -> M S) (n : nat)
    (s : S) :
  (forall i s', draws_determined (body i s')) ->
  draws_determined (for_range n body s).
Proof.
  intros Hb. induction n as [|n IH]; cbn [for_range].
  - by apply draws_determined_pure.
  - apply draws_determined_bind; [exact IH | intros; apply Hb].
Qed.

Lemma draws_determined_normal (loc scale : Q) :
  draws_determined (np_random_normal loc scale).
Proof.
  intros w1 w2 H. unfold np_random_normal. rewrite H.
  destruct (Qle_bool 0 scale).
  - destruct (np_gauss (np w2)) as [g s']. by eexists [_].
  - exists []. by rewrite !app_nil_r.
Qed.

Lemma draws_determined_seed (s : Z) : draws_determined (np_random_seed s).
Proof.
  intros w1 w2 H. unfold np_random_seed. exists [].
  destruct (decide (0 <= s < 2 ^ 32)); by rewrite !app_nil_r.
Qed.

Lemma draws_determined_ladder_body (self : Device) (fixed cond : Z -> Z)
    (d : list Z) (i : nat) (st : Z * Q) :
  draws_determined (ladder_body self fixed cond d i st).
Proof.
  destruct st as [res delay]. unfold ladder_body.
  apply draws_determined_bind.
  { apply draws_determined_pure; intros; unfold py_mod;
      by destruct (decide _). }
  intros r. apply draws_determined_bind; [apply draws_determined_normal|].
  intros x. apply draws_determined_bind.
  { apply draws_determined_pure; intros; unfold py_index;
      by destruct (d !! i). }
  intros b. destruct (decide (b = 1)); [|by apply draws_determined_pure].
  apply draws_determined_bind.
  { apply draws_determined_pure; intros; unfold py_mod;
      by destruct (decide _). }
  intros r'. apply draws_determined_bind; [apply draws_determined_seed|].
  intros _. apply draws_determined_bind; [apply draws_determined_normal|].
  intros y. by apply draws_determined_pure.
Qed.

(** The first [k] iterations of a call draw the same samples from any
    two worlds: the call reseeds from the challenge before its first
    draw. *)
Lemma group_op_upto_across_worlds (self : Device) (m : Z) (d : list Z)
    (k : nat) (w1 w2 : World) :
  exists xs : list Q,
    fst (group_op_upto self m d k w1) = fst (group_op_upto self m d k w2)
    /\ np (snd (group_op_upto self m d k w1))
       = np (snd (group_op_upto self m d k w2))
    /\ drawn (snd (group_op_upto self m d k w1)) = drawn w1 ++ xs
    /\ drawn (snd (group_op_upto self m d k w2)) = drawn w2 ++ xs.
Proof.
  unfold group_op_upto, ladder_upto, bind, np_random_seed.
  destruct (decide (0 <= m mod 2 ^ 32 < 2 ^ 32)) as [_|Hbad];
    [|destruct Hbad; apply mod_seed_ok].
  apply (draws_determined_for_range _ k (1, 0%Q)
           (draws_determined_ladder_body self _ _ d)
           (mkWorld (np_init (m mod 2 ^ 32)) (py w1) (drawn w1) (queries w1))
           (mkWorld (np_init (m mod 2 ^ 32)) (py w2) (drawn w2) (queries w2))
           eq_refl).
Qed.

(** C2. Two exponent vectors that agree on bits [0..i], and one
    challenge.  From one world the two runs reach the same state after
    step [i] (same register, same partial delay, same generator state,
    same samples drawn).  From any two worlds, as in two separate calls,
    they reach the same register, partial delay and generator state and
    draw the same sequence of samples [xs].  That sequence is an initial
    segment of what each complete run draws; on a runnable device it
    has [i + 1 + popcount(d[:i+1])] samples, whose sum is the partial
    delay. *)
Theorem C2_correlation_prefix (self : Device) (m : Z) (d1 d2 : list Z)
    (i : nat) (w1 w2 : World) :
  (i < length d1)%nat ->
  (i < length d2)%nat ->
  take (S i) d1 = take (S i) d2 ->
  group_op_upto self m d1 (S i) w1 = group_op_upto self m d2 (S i) w1
  /\ drawn (snd (group_op_upto self m d1 (S i) w1)) `prefix_of`
       drawn (snd (call_group_op self m d1 w1))
  /\ drawn (snd (group_op_upto self m d2 (S i) w1)) `prefix_of`
       drawn (snd (call_group_op self m d2 w1))
  /\ (runnable self ->
      exists res xs w',
        group_op_upto self m d1 (S i) w1 = (Ok (res, total xs), w')
        /\ drawn w' = drawn w1 ++ xs
        /\ length xs = (S i + popcount (take (S i) d1))%nat)
  /\ (exists xs : list Q,
        fst (group_op_upto self m d1 (S i) w1)
        = fst (group_op_upto self m d2 (S i) w2)
        /\ np (snd (group_op_upto self m d1 (S i) w1))
           = np (snd (group_op_upto self m d2 (S i) w2))
        /\ drawn (snd (group_op_upto self m d1 (S i) w1)) = drawn w1 ++ xs
        /\ drawn (snd (group_op_upto self m d2 (S i) w2)) = drawn w2 ++ xs
        /\ drawn w1 ++ xs `prefix_of` drawn (snd (call_group_op self m d1 w1))
        /\ drawn w2 ++ xs `prefix_of` drawn (snd (call_group_op self m d2 w2))).
Proof.
  intros H1 H2 Hagree.
  assert (Hsame : forall w,
    group_op_upto self m d1 (S i) w = group_op_upto self m d2 (S i) w).
  { intros w. unfold group_op_upto, ladder_upto, bind.
    destruct (np_random_seed (m mod 2 ^ 32) w) as [[[]|e] w']; [|done].
    apply for_range_ext. intros j s v Hj. apply ladder_body_agree.
    rewrite <- (lookup_take_lt d1 (S i) j), <- (lookup_take_lt d2 (S i) j) by lia.
    by rewrite Hagree. }
  split_and!.
  - apply Hsame.
  - apply group_op_upto_drawn_prefix. lia.
  - apply group_op_upto_drawn_prefix. lia.
  - intros [Hp Hs]. apply Qle_bool_iff in Hs.
    unfold group_op_upto, ladder_upto, bind, np_random_seed.
    destruct (decide (0 <= m mod 2 ^ 32 < 2 ^ 32)) as [_|Hbad];
      [|destruct Hbad; apply mod_seed_ok].
    destruct (ladder_loop_spec self (fst (updates (group_op self) m))
                (snd (updates (group_op self) m)) d1 (S i)
                (mkWorld (np_init (m mod 2 ^ 32)) (py w1) (drawn w1)
                   (queries w1))
                Hp Hs H1)
      as (res & xs & w' & Hrun & Hd & Hlen & _).
    by exists res, xs, w'.
  - destruct (group_op_upto_across_worlds self m d1 (S i) w1 w2)
      as (xs & Hr & Hn & Hd1 & Hd2).
    rewrite (Hsame w2) in Hr, Hn, Hd2.
    exists xs. split_and!; [done..| |].
    + rewrite <- Hd1. apply group_op_upto_drawn_prefix. lia.
    + rewrite <- Hd2. apply group_op_upto_drawn_prefix. lia.
Qed.

Lemma total_pos (xs : list Q) :
  Forall (fun x => 0 < x)%Q xs -> xs <> [] -> (0 < total xs)%Q.
Proof.
  induction xs as [|x xs IH] using rev_ind; intros Hall Hne; [done|].
  rewrite Forall_app, Forall_singleton in Hall. destruct Hall as [Hxs Hx].
  rewrite total_snoc.
  assert (0 <= total xs)%Q; [|lra].
  apply total_nonneg. eapply Forall_impl; [exact Hxs|].
  intros y Hy. by apply Qlt_le_weak.
Qed.

(** C5, amended.  For a device with a modulus other than 0 and a
    [sigma >= 0], the call returns a number [>= 0] whenever no draw of
    the generator makes [mu + sigma * gauss()] negative, as when
    [sigma = 0] and [mu >= 0]; it is [> 0] when every such sample is
    positive and the exponent is not empty. *)
Theorem C5_elapsed_nonnegative_when_samples_are (self : Device) (m : Z)
    (d : list Z) (w : World) :
  p self <> 0 ->
  (0 <= sigma self)%Q ->
  (forall s : rng, 0 <= mu self + sigma self * fst (np_gauss s))%Q ->
  exists t w',
    call_group_op self m d w = (Ok t, w')
    /\ (0 <= t)%Q
    /\ ((forall s : rng, 0 < mu self + sigma self * fst (np_gauss s))%Q ->
        d <> [] -> (0 < t)%Q).
Proof.
  intros Hp Hs Hpos.
  apply Qle_bool_iff in Hs.
  destruct (call_group_op_spec self m d w Hp Hs)
    as (xs & w' & Hrun & _ & Hlen & Hall & _).
  exists (total xs), w'. split_and!; [done | |].
  - apply total_nonneg. eapply Forall_impl; [exact Hall|].
    by intros x [s ->].
  - intros Hstrict Hd. apply total_pos.
    + eapply Forall_impl; [exact Hall|]. by intros x [s ->].
    + intros ->. destruct d; [done | cbn in Hlen; lia].
Qed.

(** *** The recovery loop *)

Lemma bind_ok {A B} (m : M A) (k : A -> M B) (w w' : World) (a : A) :
  m w = (Ok a, w') -> bind m k w = k a w'.
Proof. intros H. unfold bind. by rewrite H. Qed.

Lemma insert_last (r : list Z) (b x : Z) :
  <[length r := x]> (r ++ [b]) = r ++ [x].
Proof. induction r as [|y r IH]; [done|]. simpl. by f_equal. Qed.

Lemma runnable_spec (self : Device) (m : Z) (d : list Z) (w : World) :
  runnable self ->
  exists xs w',
    call_group_op self m d w = (Ok (total xs), w')
    /\ drawn w' = drawn w ++ xs
    /\ length xs = (length d + popcount d)%nat
    /\ Forall (sample_of (mu self) (sigma self)) xs
    /\ py w' = py w
    /\ queries w' = queries w.
Proof.
  intros [Hp Hs]. apply call_group_op_spec; [done|]. by apply Qle_bool_iff.
Qed.

Lemma attacker_sign_spec (self : Device) (c : Z) (d : list Z) (w : World) :
  runnable self ->
  exists xs w',
    AttackerDevice_sign self c d w = (Ok (total xs), w')
    /\ drawn w' = drawn w ++ xs
    /\ length xs = (length d + popcount d)%nat
    /\ py w' = py w
    /\ queries w' = queries w ++ [(c, d)].
Proof.
  intros Hrun. unfold AttackerDevice_sign, bind.
  destruct (runnable_spec self c d
              (mkWorld (np w) (py w) (drawn w) (queries w ++ [(c, d)])) Hrun)
    as (xs & w' & Hcall & Hd & Hlen & _ & Hpy & Hq).
  exists xs, w'. by rewrite Hcall.
Qed.

(** One trial of round [i], started with [recovered = r ++ [b]] where
    [r] holds the [i] finalized bits. *)
Lemma trial_spec (victim : VictimDevice) (attacker : Device) (klen : Z)
    (r : list Z) (b : Z) (acc : sums) (w : World) :
  runnable (base victim) ->
  runnable attacker ->
  exists acc' w',
    trial victim attacker klen (length r) (r ++ [b], acc) w
      = (Ok (r ++ [1], acc'), w')
    /\ queries w'
       = queries w ++ trial_queries r (fst (py_randint 1 (2 ^ klen) (py w))).
Proof.
  intros Hv Ha. unfold trial.
  destruct (py_randint 1 (2 ^ klen) (py w)) as [c s] eqn:Hc.
  erewrite bind_ok; [|unfold random_randint; by rewrite Hc].
  destruct (runnable_spec (base victim) c (secret victim)
              (mkWorld (np w) s (drawn w) (queries w)) Hv)
    as (xs & w1 & Hvic & _ & _ & _ & _ & Hq1).
  erewrite bind_ok; [|exact Hvic].
  assert (Hlt : (length r < length (r ++ [b]))%nat)
    by (rewrite length_app; cbn; lia).
  erewrite bind_ok;
    [|unfold py_setitem; by rewrite (decide_True _ _ Hlt), insert_last].
  destruct (attacker_sign_spec attacker c (r ++ [0]) w1 Ha)
    as (ys & w2 & Hatt0 & _ & _ & _ & Hq2).
  erewrite bind_ok; [|exact Hatt0].
  assert (Hlt0 : (length r < length (r ++ [0%Z]))%nat)
    by (rewrite length_app; cbn; lia).
  erewrite bind_ok;
    [|unfold py_setitem; by rewrite (decide_True _ _ Hlt0), insert_last].
  destruct (attacker_sign_spec attacker c (r ++ [1]) w2 Ha)
    as (zs & w3 & Hatt1 & _ & _ & _ & Hq3).
  erewrite bind_ok; [|exact Hatt1].
  eexists _, w3. split; [reflexivity|].
  rewrite Hq3, Hq2, Hq1. cbn. by rewrite <- (assoc_L (++)).
Qed.

(** The trials of the round that starts from the finalized bits [r]:
    every attacker query carries [r] followed by the bit under test. *)
Lemma trials_spec (victim : VictimDevice) (attacker : Device) (N klen : Z)
    (r : list Z) (w : World) :
  runnable (base victim) ->
  runnable attacker ->
  exists b acc cs w',
    trials victim attacker N klen (length r) r w = (Ok (r ++ [b], acc), w')
    /\ length cs = Z.to_nat N
    /\ queries w' = queries w ++ flat_map (trial_queries r) cs.
Proof.
  intros Hv Ha. unfold trials.
  induction (Z.to_nat N) as [|n IH].
  - exists 0, (mkSums 0 0 0 0), [], w. by rewrite app_nil_r.
  - destruct IH as (b & acc & cs & w1 & Hrun & Hlen & Hq).
    destruct (trial_spec victim attacker klen r b acc w1 Hv Ha)
      as (acc' & w2 & Hstep & Hq2).
    exists 1, acc', (cs ++ [fst (py_randint 1 (2 ^ klen) (py w1))]), w2.
    cbn [for_range]. erewrite bind_ok; [|exact Hrun].
    split_and!; [done | rewrite length_app, Hlen; cbn; lia |].
    rewrite Hq2, Hq, flat_map_app. cbn [flat_map].
    by rewrite app_nil_r, (assoc_L (++)).
Qed.

(** The round that starts from the finalized bits [r]. *)
Lemma round_spec (victim : VictimDevice) (attacker : Device) (N klen : Z)
    (r : list Z) (w : World) :
  runnable (base victim) ->
  runnable attacker ->
  exists b acc cs w',
    trials victim attacker N klen (length r) r w = (Ok (r ++ [b], acc), w')
    /\ length cs = Z.to_nat N
    /\ queries w' = queries w ++ flat_map (trial_queries r) cs
    /\ snd (round victim attacker N klen (length r) r w) = w'
    /\ (N <> 0 ->
        round victim attacker N klen (length r) r w
        = (Ok (r ++ [choose (var_of (sum0 acc) (sum0_square acc) N)
                            (var_of (sum1 acc) (sum1_square acc) N)]), w')).
Proof.
  intros Hv Ha.
  destruct (trials_spec victim attacker N klen r w Hv Ha)
    as (b & acc & cs & w' & Hrun & Hlen & Hq).
  exists b, acc, cs, w'. split_and!; try done.
  - unfold round. erewrite bind_ok; [|exact Hrun].
    unfold variance, py_truediv, py_setitem, bind, raise, ret.
    destruct (decide (N = 0)); [done|].
    by destruct (decide (length r < length (r ++ [b]))%nat).
  - intros HN. unfold round. erewrite bind_ok; [|exact Hrun].
    unfold variance, py_truediv, py_setitem, bind, raise, ret.
    destruct (decide (N = 0)); [done|].
    destruct (decide (length r < length (r ++ [b]))%nat) as [_|Hbad];
      [|destruct Hbad; rewrite length_app; cbn; lia].
    by rewrite insert_last.
Qed.

(** With [N <> 0] the recovery loop reaches every round; round [n]
    starts from [n] finalized bits, which extend those of every earlier
    round. *)
Lemma recover_upto_spec (victim : VictimDevice) (attacker : Device)
    (N klen : Z) (n : nat) (w : World) :
  runnable (base victim) ->
  runnable attacker ->
  N <> 0 ->
  exists r w',
    recover_upto victim attacker N klen n w = (Ok r, w')
    /\ length r = n
    /\ forall i r_i w_i,
         (i <= n)%nat ->
         recover_upto victim attacker N klen i w = (Ok r_i, w_i) ->
         r_i `prefix_of` r.
Proof.
  intros Hv Ha HN. unfold recover_upto. induction n as [|n IH].
  - exists [], w. split_and!; [done..|].
    intros i r_i w_i Hi. assert (i = 0%nat) as -> by lia.
    cbn. by intros [= <- <-].
  - destruct IH as (r & w1 & Hrun & Hlen & Hpre).
    destruct (round_spec victim attacker N klen r w1 Hv Ha)
      as (b & acc & cs & w2 & _ & _ & _ & _ & Hround).
    specialize (Hround HN). rewrite Hlen in Hround.
    eexists _, w2. cbn [for_range]. erewrite bind_ok; [|exact Hrun].
    split_and!; [exact Hround | rewrite length_app, Hlen; cbn; lia |].
    intros i r_i w_i Hi Hi_run.
    destruct (decide (i = S n)) as [->|Hne].
    + cbn [for_range] in Hi_run. erewrite bind_ok in Hi_run; [|exact Hrun].
      rewrite Hround in Hi_run. by simplify_eq.
    + etrans; [apply (Hpre i r_i w_i); [lia | done] | by apply prefix_app_r].
Qed.

Lemma recover_upto_S (victim : VictimDevice) (attacker : Device)
    (N klen : Z) (i : nat) (w w_i : World) (r : list Z) :
  recover_upto victim attacker N klen i w = (Ok r, w_i) ->
  recover_upto victim attacker N klen (S i) w
  = round victim attacker N klen i r w_i.
Proof. intros H. unfold recover_upto in *. cbn [for_range]. by erewrite bind_ok. Qed.

Lemma Qlt_bool_iff (a b : Q) : Qlt_bool a b = true <-> (a < b)%Q.
Proof.
  unfold Qlt_bool. rewrite negb_true_iff, <- not_true_iff_false, Qle_bool_iff.
  split; [apply Qnot_le_lt | apply Qlt_not_le].
Qed.

Lemma choose_spec (var0 var1 : Q) :
  ((var0 < var1)%Q -> choose var0 var1 = 0)
  /\ (~ (var0 < var1)%Q -> choose var0 var1 = 1)
  /\ ((var0 == var1)%Q -> choose var0 var1 = 1).
Proof.
  unfold choose. pose proof (Qlt_bool_iff var0 var1) as H.
  destruct (Qlt_bool var0 var1).
  - split_and!; [done | intros Hn; destruct Hn; by apply H |].
    intros Heq. assert (var0 < var1)%Q as Hlt by by apply H.
    rewrite Heq in Hlt. by apply Qlt_irrefl in Hlt.
  - split_and!; [|done..]. intros Hlt. apply H in Hlt. done.
Qed.

(** C3, amended.  In the round for bit [i] the working vector has
    length [i + 1], not [keylen]: it is the [i] bits finalized by the
    earlier rounds followed by the bit under test, 0 in the first
    attacker query of a trial and 1 in the second.  There is no
    position greater than [i]. *)
Theorem C3_round_queries_have_length_i_plus_1 (victim : VictimDevice)
    (attacker : Device) (N klen : Z) (i : nat) (w : World) :
  runnable (base victim) ->
  runnable attacker ->
  N <> 0 ->
  exists r w_i cs,
    recover_upto victim attacker N klen i w = (Ok r, w_i)
    /\ length r = i
    /\ length cs = Z.to_nat N
    /\ queries (snd (round victim attacker N klen i r w_i))
       = queries w_i ++ flat_map (fun c => [(c, r ++ [0]); (c, r ++ [1])]) cs.
Proof.
  intros Hv Ha HN.
  destruct (recover_upto_spec victim attacker N klen i w Hv Ha HN)
    as (r & w_i & Hrun & Hlen & _).
  destruct (round_spec victim attacker N klen r w_i Hv Ha)
    as (b & acc & cs & w' & _ & Hcs & Hq & Hsnd & _).
  exists r, w_i, cs. rewrite Hlen in Hsnd. by rewrite Hsnd.
Qed.

(** C4. The bit the recovered list holds at position [i] after round
    [i], and after every later round, is 0 if [var0 < var1] and 1
    otherwise, where [var0] and [var1] are the variances computed from
    the accumulators of round [i]; an exact tie gives 1. *)
Theorem C4_bit_chosen_by_variance (victim : VictimDevice) (attacker : Device)
    (N klen : Z) (i n : nat) (w : World) :
  runnable (base victim) ->
  runnable attacker ->
  N <> 0 ->
  (i < n)%nat ->
  exists r_i w_i rec acc w' r_n w_n,
    recover_upto victim attacker N klen i w = (Ok r_i, w_i)
    /\ trials victim attacker N klen i r_i w_i = (Ok (rec, acc), w')
    /\ recover_upto victim attacker N klen n w = (Ok r_n, w_n)
    /\ let var0 := (sum0_square acc / inject_Z N
                     - (sum0 acc / inject_Z N) ^ 2)%Q in
       let var1 := (sum1_square acc / inject_Z N
                     - (sum1 acc / inject_Z N) ^ 2)%Q in
       ((var0 < var1)%Q -> r_n !! i = Some 0)
       /\ (~ (var0 < var1)%Q -> r_n !! i = Some 1)
       /\ ((var0 == var1)%Q -> r_n !! i = Some 1).
Proof.
  intros Hv Ha HN Hin.
  destruct (recover_upto_spec victim attacker N klen i w Hv Ha HN)
    as (r_i & w_i & Hrun_i & Hlen_i & _).
  destruct (round_spec victim attacker N klen r_i w_i Hv Ha)
    as (b & acc & cs & w' & Htrials & _ & _ & _ & Hround).
  specialize (Hround HN). rewrite Hlen_i in Htrials, Hround.
  destruct (recover_upto_spec victim attacker N klen n w Hv Ha HN)
    as (r_n & w_n & Hrun_n & Hlen_n & Hpre).
  exists r_i, w_i, (r_i ++ [b]), acc, w', r_n, w_n.
  split_and!; [done..|].
  set (bit := choose _ _) in Hround.
  assert (Hbit : r_n !! i = Some bit).
  { eapply prefix_lookup_Some; [|apply (Hpre (S i) _ w'); [lia|]].
    - by rewrite <- Hlen_i, list_lookup_middle.
    - by rewrite (recover_upto_S _ _ _ _ _ _ _ _ Hrun_i). }
  cbn zeta. rewrite Hbit. unfold bit, var_of.
  destruct (choose_spec (var_of (sum0 acc) (sum0_square acc) N)
              (var_of (sum1 acc) (sum1_square acc) N)) as (H0 & H1 & Ht).
  unfold var_of in *. split_and!; intros H; f_equal; auto.
Qed.

(** *** Construction *)

Lemma primes_lookup_Some (k pr : Z) :
  primes !! k = Some pr <->
  (k, pr) ∈ [ (8, 61); (16, 53759); (32, 2675797811);
              (64, 8642890157798231327);
              (128, 249018405283997733407297959207515566297) ].
Proof.
  unfold primes. rewrite <- elem_of_list_to_map; [done|].
  by apply (bool_decide_unpack _).
Qed.

Lemma primes_lookup_None (k : Z) :
  primes !! k = None <-> k ∉ [8; 16; 32; 64; 128].
Proof.
  unfold primes. rewrite <- not_elem_of_list_to_map. done.
Qed.

Lemma Device_init_raises (klen : Z) (mu sigma : Q) (w : World) :
  klen ∉ [8; 16; 32; 64; 128] ->
  Device_init klen mu sigma w = (Raise KeyError, w).
Proof.
  intros H. apply primes_lookup_None in H. unfold Device_init. by rewrite H.
Qed.

Lemma Device_init_returns (klen pr : Z) (mu sigma : Q) (w : World) :
  primes !! klen = Some pr ->
  Device_init klen mu sigma w = (Ok (mkDevice pr klen mu sigma DoubleAndAdd), w).
Proof. intros H. unfold Device_init. by rewrite H. Qed.

(** A device [Device.__init__] returns, for a [sigma >= 0]. *)
Lemma Device_init_runnable (klen : Z) (mu sigma : Q) (w w' : World)
    (self : Device) :
  (0 <= sigma)%Q ->
  Device_init klen mu sigma w = (Ok self, w') ->
  runnable self.
Proof.
  intros Hs. unfold Device_init.
  destruct (primes !! klen) as [pr|] eqn:Hpr; [|done].
  intros [= <- <-]. split; [|done]. cbn.
  apply primes_lookup_Some in Hpr.
  repeat (apply elem_of_cons in Hpr as [[= -> ->]|Hpr]; [done|]).
  by apply elem_of_nil in Hpr.
Qed.

(** C9. A key length outside the table makes [Device.__init__] raise
    [KeyError]; so do [VictimDevice.__init__] and [main], before a
    generator is seeded, a sample drawn or a query made.  A key length
    of the table gives a device whose modulus is the tabulated prime. *)
Theorem C9_unsupported_keylen_fails_at_construction (klen N seed : Z)
    (mu sigma : Q) (w : World) :
  (klen ∉ [8; 16; 32; 64; 128] ->
   Device_init klen mu sigma w = (Raise KeyError, w)
   /\ VictimDevice_init klen mu sigma seed w = (Raise KeyError, w)
   /\ exists w',
        main_with N klen mu sigma w = (Raise KeyError, w')
        /\ np w' = np w /\ drawn w' = drawn w /\ queries w' = queries w)
  /\ (forall pr,
        (klen, pr) ∈ [ (8, 61); (16, 53759); (32, 2675797811);
                       (64, 8642890157798231327);
                       (128, 249018405283997733407297959207515566297) ] ->
        Device_init klen mu sigma w
        = (Ok (mkDevice pr klen mu sigma DoubleAndAdd), w)).
Proof.
  split.
  - intros H. split_and!.
    + by apply Device_init_raises.
    + unfold VictimDevice_init, bind. by rewrite Device_init_raises.
    + unfold main_with, bind at 1, random_randint.
      destruct (py_randint 1 4294967295 (py w)) as [c s].
      eexists. unfold VictimDevice_init, bind.
      rewrite Device_init_raises by done. done.
  - intros pr H. apply Device_init_returns. by apply primes_lookup_Some.
Qed.

(** *** The secret *)

Lemma coins_spec (n : nat) (w : World) :
  exists bs w',
    coins n w = (Ok bs, w')
    /\ length bs = n
    /\ Forall (fun b => b = 0 \/ b = 1) bs.
Proof.
  unfold coins. induction n as [|n IH].
  - by exists [], w.
  - destruct IH as (bs & w1 & Hrun & Hlen & Hall).
    cbn [for_range]. erewrite bind_ok; [|exact Hrun].
    unfold coin, bind, np_random_rand, ret.
    destruct (np_uniform (np w1)) as [u s].
    eexists _, _. split_and!; [done | rewrite length_app, Hlen; cbn; lia |].
    apply Forall_app. split; [done|]. apply Forall_singleton.
    destruct (Qle_bool u (1 # 2)); auto.
Qed.

Lemma np_determined_coins (n : nat) : np_determined (coins n).
Proof.
  unfold coins. apply np_determined_for_range. intros _ acc.
  apply np_determined_bind; [|intros; apply np_determined_ret].
  unfold coin. apply np_determined_bind; [|intros; apply np_determined_ret].
  intros w1 w2 H. unfold np_random_rand. rewrite H.
  by destruct (np_uniform (np w2)).
Qed.

Lemma VictimDevice_init_spec (klen pr seed : Z) (mu sigma : Q) (w : World) :
  primes !! klen = Some pr ->
  0 <= seed < 2 ^ 32 ->
  exists bs w',
    coins (Z.to_nat (klen - 1))
      (mkWorld (np_init seed) (py w) (drawn w) (queries w)) = (Ok bs, w')
    /\ VictimDevice_init klen mu sigma seed w
       = (Ok (mkVictim (mkDevice pr klen mu sigma DoubleAndAdd) (1 :: bs)), w').
Proof.
  intros Hpr Hseed. unfold VictimDevice_init.
  erewrite bind_ok; [|by apply Device_init_returns].
  erewrite bind_ok; [|unfold np_random_seed; by rewrite decide_True].
  cbn [keylen].
  destruct (coins_spec (Z.to_nat (klen - 1))
              (mkWorld (np_init seed) (py w) (drawn w) (queries w)))
    as (bs & w' & Hc & _).
  exists bs, w'. split; [done|]. by erewrite bind_ok.
Qed.

(** C8. For a key length of the table and a seed numpy accepts, the
    constructor returns a secret of exactly [keylen] bits whose first
    bit is 1; the secret is the same from any two worlds, that is, it
    is a function of the seed and the key length. *)
Theorem C8_secret_generation (klen seed : Z) (mu sigma : Q) (w1 w2 : World) :
  klen ∈ [8; 16; 32; 64; 128] ->
  0 <= seed < 2 ^ 32 ->
  exists v1 v2 u1 u2,
    VictimDevice_init klen mu sigma seed w1 = (Ok v1, u1)
    /\ VictimDevice_init klen mu sigma seed w2 = (Ok v2, u2)
    /\ secret v1 = secret v2
    /\ Z.of_nat (length (secret v1)) = klen
    /\ Forall (fun b => b = 0 \/ b = 1) (secret v1)
    /\ secret v1 !! 0%nat = Some 1.
Proof.
  intros Hk Hseed.
  assert (exists pr, primes !! klen = Some pr /\ 1 <= klen) as (pr & Hpr & Hge).
  { repeat (apply elem_of_cons in Hk as [->|Hk]; [by eexists|]).
    by apply elem_of_nil in Hk. }
  destruct (VictimDevice_init_spec klen pr seed mu sigma w1 Hpr Hseed)
    as (bs1 & u1 & Hc1 & Hrun1).
  destruct (VictimDevice_init_spec klen pr seed mu sigma w2 Hpr Hseed)
    as (bs2 & u2 & Hc2 & Hrun2).
  destruct (np_determined_coins (Z.to_nat (klen - 1))
              (mkWorld (np_init seed) (py w1) (drawn w1) (queries w1))
              (mkWorld (np_init seed) (py w2) (drawn w2) (queries w2))
              eq_refl) as [Hfst _].
  rewrite Hc1, Hc2 in Hfst. cbn in Hfst. simplify_eq.
  destruct (coins_spec (Z.to_nat (klen - 1))
              (mkWorld (np_init seed) (py w1) (drawn w1) (queries w1)))
    as (bs & t & Hc & Hlen & Hall).
  rewrite Hc in Hc1. simplify_eq.
  eexists _, _, _, _. split_and!; [exact Hrun1 | exact Hrun2 | done | | | done].
  - cbn. lia.
  - cbn. constructor; auto.
Qed.

(** *** The attacker's queries *)

Lemma trial_queries_shape (r : list Z) (cs : list Z) :
  length (flat_map (trial_queries r) cs) = (2 * length cs)%nat
  /\ Forall (fun q : Z * list Z => length (snd q) = S (length r))
       (flat_map (trial_queries r) cs).
Proof.
  induction cs as [|c cs [IHlen IHall]]; [by split|].
  split; [cbn; lia|]. cbn.
  repeat (constructor; [cbn; rewrite length_app; cbn; lia|]). exact IHall.
Qed.

(** C10. [AttackerDevice.sign(c, d)] returns for a vector [d] of any
    length and draws exactly [len(d) + popcount(d)] samples; the
    device's [keylen] has no part in it.  In round [i] the recovery
    loop makes [2 * N] queries, each with a vector of length [i + 1]. *)
Theorem C10_sign_accepts_any_length (victim : VictimDevice)
    (attacker : Device) (c : Z) (d : list Z) (N klen : Z) (i : nat)
    (w : World) :
  runnable (base victim) ->
  runnable attacker ->
  N <> 0 ->
  (exists t xs w',
      AttackerDevice_sign attacker c d w = (Ok t, w')
      /\ drawn w' = drawn w ++ xs
      /\ length xs = (length d + popcount d)%nat)
  /\ (forall k : Z,
        AttackerDevice_sign
          (mkDevice (p attacker) k (mu attacker) (sigma attacker)
             (group_op attacker)) c d w
        = AttackerDevice_sign attacker c d w)
  /\ (exists r w_i qs,
        recover_upto victim attacker N klen i w = (Ok r, w_i)
        /\ queries (snd (round victim attacker N klen i r w_i))
           = queries w_i ++ qs
        /\ length qs = (2 * Z.to_nat N)%nat
        /\ Forall (fun q : Z * list Z => length (snd q) = S i) qs).
Proof.
  intros Hv Ha HN. split_and!.
  - destruct (attacker_sign_spec attacker c d w Ha)
      as (xs & w' & Hrun & Hd & Hlen & _).
    by exists (total xs), xs, w'.
  - intros k. by destruct attacker.
  - destruct (recover_upto_spec victim attacker N klen i w Hv Ha HN)
      as (r & w_i & Hrun & Hlen & _).
    destruct (round_spec victim attacker N klen r w_i Hv Ha)
      as (b & acc & cs & w' & _ & Hcs & Hq & Hsnd & _).
    destruct (trial_queries_shape r cs) as [Hqlen Hqall].
    rewrite Hlen in Hsnd, Hqall.
    exists r, w_i, (flat_map (trial_queries r) cs).
    split_and!; [done | by rewrite Hsnd | by rewrite Hqlen, Hcs | done].
Qed.

(** *** The verifier *)

Lemma agreeing_S (s d : list Z) (n : nat) :
  agreeing s d (S n)
  = (agreeing s d n + (if decide (s !! n = d !! n) then 1 else 0))%nat.
Proof.
  unfold agreeing. rewrite seq_S, filter_app, length_app. f_equal.
  cbn [Nat.add]. rewrite filter_cons, filter_nil.
  by destruct (decide (s !! n = d !! n)).
Qed.

Lemma agreeing_le (s d : list Z) (n : nat) : (agreeing s d n <= n)%nat.
Proof.
  unfold agreeing. etrans; [apply length_filter|]. by rewrite length_seq.
Qed.

Lemma matches_spec (s d : list Z) (n : nat) (w : World) :
  (n <= length s)%nat ->
  (n <= length d)%nat ->
  matches s d n w = (Ok (Z.of_nat (agreeing s d n)), w).
Proof.
  unfold matches. induction n as [|n IH]; intros Hs Hd; [done|].
  cbn [for_range]. erewrite bind_ok; [|apply IH; lia].
  destruct (lookup_lt_is_Some_2 s n) as [x Hx]; [lia|].
  destruct (lookup_lt_is_Some_2 d n) as [y Hy]; [lia|].
  unfold py_index, bind, ret. rewrite Hx, Hy, agreeing_S, Hx, Hy.
  do 2 f_equal.
  destruct (decide (x = y)) as [->|Hne].
  - rewrite decide_True by done. lia.
  - rewrite decide_False by congruence. lia.
Qed.

(** C7. [check] classifies the fraction [f = matches / keylen] of
    positions at which the recovered list equals the secret: LOW when
    [f < 0.75], PARTIAL when [0.75 <= f < 1] (0.75 included), FULL when
    [f = 1]. *)
Theorem C7_check_thresholds (self : VictimDevice) (d : list Z) (w : World) :
  0 < keylen (base self) ->
  (Z.to_nat (keylen (base self)) <= length (secret self))%nat ->
  (Z.to_nat (keylen (base self)) <= length d)%nat ->
  exists v,
    check self d w = (Ok v, w)
    /\ let f := (inject_Z (Z.of_nat (agreeing (secret self) d
                                       (Z.to_nat (keylen (base self)))))
                 / inject_Z (keylen (base self)))%Q in
       (v = LOW <-> (f < 3 # 4)%Q)
       /\ (v = PARTIAL <-> (3 # 4 <= f)%Q /\ (f < 1)%Q)
       /\ (v = FULL <-> (f == 1)%Q).
Proof.
  intros Hn Hs Hd. set (n := keylen (base self)) in *.
  set (a := agreeing (secret self) d (Z.to_nat n)).
  unfold check. fold n. erewrite bind_ok; [|by apply matches_spec].
  fold a. erewrite bind_ok;
    [|unfold py_truediv; rewrite decide_False by lia; reflexivity].
  set (f := (inject_Z (Z.of_nat a) / inject_Z n)%Q).
  assert (Hle : (f <= 1)%Q).
  { unfold f. apply Qle_shift_div_r.
    - change 0%Q with (inject_Z 0). rewrite <- Zlt_Qlt. lia.
    - rewrite Qmult_1_l, <- Zle_Qle.
      pose proof (agreeing_le (secret self) d (Z.to_nat n)). fold a in H. lia. }
  pose proof (Qlt_bool_iff f (3 # 4)) as H34.
  pose proof (Qlt_bool_iff f 1) as H1.
  destruct (Qlt_bool f (3 # 4)); [|destruct (Qlt_bool f 1)].
  - assert (f < 3 # 4)%Q as Hlt by by apply H34.
    exists LOW. split; [done|]. cbn zeta. split_and!.
    + done.
    + split; [done|]. intros [Hge _]. lra.
    + split; [done|]. intros Heq. lra.
  - assert (~ (f < 3 # 4)%Q) as Hnlt by (intros H; by apply H34 in H).
    assert (f < 1)%Q as Hlt by by apply H1.
    exists PARTIAL. split; [done|]. cbn zeta. split_and!.
    + split; [done|]. intros H. done.
    + split; [|done]. intros _. split; [lra | done].
    + split; [done|]. intros Heq. lra.
  - assert (~ (f < 3 # 4)%Q) as Hnlt by (intros H; by apply H34 in H).
    assert (~ (f < 1)%Q) as Hnlt1 by (intros H; by apply H1 in H).
    exists FULL. split; [done|]. cbn zeta. split_and!.
    + split; [done|]. intros H. done.
    + split; [done|]. intros [_ H]. done.
    + split; [|done]. intros _. lra.
Qed.

End Properties.

(** ** The theorems on concrete inputs *)

Lemma C2_correlation_prefix_witness :
  group_op_upto noisy8 5 [1; 0; 1; 1] 2 toy_world
  = group_op_upto noisy8 5 [1; 0; 0; 1; 1] 2 toy_world
  /\ drawn (snd (group_op_upto noisy8 5 [1; 0; 1; 1] 2 toy_world))
       `prefix_of` drawn (snd (call_group_op noisy8 5 [1; 0; 1; 1] toy_world))
  /\ drawn (snd (group_op_upto noisy8 5 [1; 0; 0; 1; 1] 2 toy_world))
       `prefix_of`
       drawn (snd (call_group_op noisy8 5 [1; 0; 0; 1; 1] toy_world))
  /\ (runnable noisy8 ->
      exists res xs w',
        group_op_upto noisy8 5 [1; 0; 1; 1] 2 toy_world
        = (Ok (res, total xs), w')
        /\ drawn w' = drawn toy_world ++ xs
        /\ length xs = 3%nat)
  /\ (exists xs : list Q,
        fst (group_op_upto noisy8 5 [1; 0; 1; 1] 2 toy_world)
        = fst (group_op_upto noisy8 5 [1; 0; 0; 1; 1] 2 toy_world_later)
        /\ np (snd (group_op_upto noisy8 5 [1; 0; 1; 1] 2 toy_world))
           = np (snd (group_op_upto noisy8 5 [1; 0; 0; 1; 1] 2 toy_world_later))
        /\ drawn (snd (group_op_upto noisy8 5 [1; 0; 1; 1] 2 toy_world))
           = drawn toy_world ++ xs
        /\ drawn (snd (group_op_upto noisy8 5 [1; 0; 0; 1; 1] 2 toy_world_later))
           = drawn toy_world_later ++ xs
        /\ drawn toy_world ++ xs `prefix_of`
             drawn (snd (call_group_op noisy8 5 [1; 0; 1; 1] toy_world))
        /\ drawn toy_world_later ++ xs `prefix_of`
             drawn (snd (call_group_op noisy8 5 [1; 0; 0; 1; 1]
                           toy_world_later))).
Proof.
  apply (C2_correlation_prefix (G := toy) noisy8 5 [1; 0; 1; 1]
           [1; 0; 0; 1; 1] 1 toy_world toy_world_later).
  - simpl. lia.
  - simpl. lia.
  - reflexivity.
Defined.

(** The samples the two runs of the previous lemma share: three of them,
    for the two steps and the one conditional sub-step of bits [1; 0]. *)
Example C2_shared_samples :
  length (drawn (snd (group_op_upto noisy8 5 [1; 0; 1; 1] 2 toy_world))) = 3%nat
  /\ take 3 (drawn (snd (call_group_op noisy8 5 [1; 0; 1; 1] toy_world)))
     = take 3 (drawn (snd (call_group_op noisy8 5 [1; 0; 0; 1; 1] toy_world)))
  /\ drawn (snd (call_group_op noisy8 5 [1; 0; 1; 1] toy_world))
     <> drawn (snd (call_group_op noisy8 5 [1; 0; 0; 1; 1] toy_world)).
Proof. split_and!; [by vm_compute | by vm_compute |]. vm_compute. congruence. Qed.

(** With [keylen = 8] the first attacker query of the recovery carries
    a vector of length 1: it has no position 1, let alone seven
    positions holding 0. *)
Lemma C3_counterexample_first_query_has_length_1 :
  exists c d rest,
    queries (snd (recover victim8 quiet8 1 8 toy_world)) = (c, d) :: rest
    /\ length d <> 8%nat
    /\ d !! 1%nat = None.
Proof. eexists _, _, _. split_and!; [by vm_compute | by vm_compute | by vm_compute]. Qed.

Lemma C3_round_queries_have_length_i_plus_1_witness :
  exists r w_i cs,
    recover_upto victim8 quiet8 2 8 3 toy_world = (Ok r, w_i)
    /\ length r = 3%nat
    /\ length cs = Z.to_nat 2
    /\ queries (snd (round victim8 quiet8 2 8 3 r w_i))
       = queries w_i ++ flat_map (fun c => [(c, r ++ [0]); (c, r ++ [1])]) cs.
Proof.
  apply (C3_round_queries_have_length_i_plus_1 (G := toy) victim8 quiet8 2 8 3
           toy_world).
  - split; [vm_compute; congruence | vm_compute; congruence].
  - split; [vm_compute; congruence | vm_compute; congruence].
  - lia.
Defined.

Lemma C4_bit_chosen_by_variance_witness :
  exists r_i w_i rec acc w' r_n w_n,
    recover_upto victim8 quiet8 2 8 3 toy_world = (Ok r_i, w_i)
    /\ trials victim8 quiet8 2 8 3 r_i w_i = (Ok (rec, acc), w')
    /\ recover_upto victim8 quiet8 2 8 8 toy_world = (Ok r_n, w_n)
    /\ let var0 := (sum0_square acc / inject_Z 2
                     - (sum0 acc / inject_Z 2) ^ 2)%Q in
       let var1 := (sum1_square acc / inject_Z 2
                     - (sum1 acc / inject_Z 2) ^ 2)%Q in
       ((var0 < var1)%Q -> r_n !! 3%nat = Some 0)
       /\ (~ (var0 < var1)%Q -> r_n !! 3%nat = Some 1)
       /\ ((var0 == var1)%Q -> r_n !! 3%nat = Some 1).
Proof.
  apply (C4_bit_chosen_by_variance (G := toy) victim8 quiet8 2 8 3 8 toy_world).
  - split; [vm_compute; congruence | vm_compute; congruence].
  - split; [vm_compute; congruence | vm_compute; congruence].
  - lia.
  - lia.
Defined.

(** A tie: equal variances give the bit 1. *)
Example C4_tie_gives_1 : choose (1 # 2) (2 # 4) = 1.
Proof. reflexivity. Qed.

(** [Device(8, -1, 0)] is built, and signing with the one-bit exponent
    [[1]] takes time -2. *)
Lemma C5_counterexample_negative_mean :
  exists t,
    fst (bind (Device_init 8 (-1) 0) (fun self => call_group_op self 5 [1])
           toy_world) = Ok t
    /\ ~ (0 <= t)%Q.
Proof.
  eexists. split; [by vm_compute|]. vm_compute. intros H. by apply H.
Qed.

Lemma C5_elapsed_nonnegative_when_samples_are_witness :
  exists t w',
    call_group_op quiet8 5 [1; 0; 1; 1] toy_world = (Ok t, w')
    /\ (0 <= t)%Q
    /\ ((forall s : Z, 0 < mu quiet8 + sigma quiet8 * fst (@np_gauss toy s))%Q ->
        [1; 0; 1; 1] <> [] -> (0 < t)%Q).
Proof.
  apply (C5_elapsed_nonnegative_when_samples_are (G := toy) quiet8 5
           [1; 0; 1; 1] toy_world).
  - vm_compute. congruence.
  - vm_compute. congruence.
  - intros s. simpl. unfold Qle. simpl. lia.
Defined.

Lemma C7_check_thresholds_witness :
  exists v,
    check victim8 [1; 0; 1; 1; 0; 0; 0; 1] toy_world = (Ok v, toy_world)
    /\ let a := agreeing (secret victim8) [1; 0; 1; 1; 0; 0; 0; 1]
                 (Z.to_nat (keylen (base victim8))) in
       let f := (inject_Z (Z.of_nat a) / inject_Z (keylen (base victim8)))%Q in
       (v = LOW <-> (f < 3 # 4)%Q)
       /\ (v = PARTIAL <-> (3 # 4 <= f)%Q /\ (f < 1)%Q)
       /\ (v = FULL <-> (f == 1)%Q).
Proof.
  apply (C7_check_thresholds (G := toy) victim8 [1; 0; 1; 1; 0; 0; 0; 1]
           toy_world).
  - simpl. lia.
  - simpl. lia.
  - simpl. lia.
Defined.

(** The boundaries on an 8-bit secret: 8 matches of 8 print FULL, 7 and
    6 (the fraction 0.75) print PARTIAL, 5 and 4 print LOW. *)
Example C7_boundaries :
  fst (check victim8 [1; 0; 1; 1; 0; 0; 1; 0] toy_world) = Ok FULL
  /\ fst (check victim8 [1; 0; 1; 1; 0; 0; 1; 1] toy_world) = Ok PARTIAL
  /\ fst (check victim8 [1; 0; 1; 1; 0; 0; 0; 1] toy_world) = Ok PARTIAL
  /\ fst (check victim8 [1; 0; 1; 1; 0; 1; 0; 1] toy_world) = Ok LOW
  /\ fst (check victim8 [1; 0; 1; 1; 1; 1; 0; 1] toy_world) = Ok LOW.
Proof. by vm_compute. Qed.

Lemma C8_secret_generation_witness :
  exists v1 v2 u1 u2,
    VictimDevice_init 8 1000 50 built_in_seed toy_world = (Ok v1, u1)
    /\ VictimDevice_init 8 1000 50 built_in_seed
         (@mkWorld toy 77 5 [1 # 3] [(9, [1; 1])]) = (Ok v2, u2)
    /\ secret v1 = secret v2
    /\ Z.of_nat (length (secret v1)) = 8
    /\ Forall (fun b => b = 0 \/ b = 1) (secret v1)
    /\ secret v1 !! 0%nat = Some 1.
Proof.
  apply (C8_secret_generation (G := toy) 8 built_in_seed 1000 50 toy_world
           (@mkWorld toy 77 5 [1 # 3] [(9, [1; 1])])).
  - by apply (bool_decide_unpack _).
  - vm_compute. split; congruence.
Defined.

Lemma C9_unsupported_keylen_fails_at_construction_witness :
  (12 ∉ [8; 16; 32; 64; 128] ->
   Device_init 12 1000 50 toy_world = (Raise KeyError, toy_world)
   /\ VictimDevice_init 12 1000 50 built_in_seed toy_world
      = (Raise KeyError, toy_world)
   /\ exists w',
        main_with 4000 12 1000 50 toy_world = (Raise KeyError, w')
        /\ np w' = np toy_world
        /\ drawn w' = drawn toy_world
        /\ queries w' = queries toy_world)
  /\ (forall pr,
        (12, pr) ∈ [ (8, 61); (16, 53759); (32, 2675797811);
                     (64, 8642890157798231327);
                     (128, 249018405283997733407297959207515566297) ] ->
        Device_init 12 1000 50 toy_world
        = (Ok (mkDevice pr 12 1000 50 DoubleAndAdd), toy_world)).
Proof.
  exact (C9_unsupported_keylen_fails_at_construction (G := toy) 12 4000
           built_in_seed 1000 50 toy_world).
Defined.

(** The table, entry by entry, and two key lengths it lacks. *)
Example C9_table :
  fst (Device_init 8 1000 50 toy_world) = Ok (mkDevice 61 8 1000 50 DoubleAndAdd)
  /\ fst (Device_init 16 1000 50 toy_world)
     = Ok (mkDevice 53759 16 1000 50 DoubleAndAdd)
  /\ fst (Device_init 32 1000 50 toy_world)
     = Ok (mkDevice 2675797811 32 1000 50 DoubleAndAdd)
  /\ fst (Device_init 64 1000 50 toy_world)
     = Ok (mkDevice 8642890157798231327 64 1000 50 DoubleAndAdd)
  /\ fst (Device_init 128 1000 50 toy_world)
     = Ok (mkDevice 249018405283997733407297959207515566297 128 1000 50
             DoubleAndAdd)
  /\ fst (Device_init 12 1000 50 toy_world) = Raise KeyError
  /\ fst (Device_init 0 1000 50 toy_world) = Raise KeyError.
Proof. by vm_compute. Qed.

Lemma C10_sign_accepts_any_length_witness :
  (exists t xs w',
      AttackerDevice_sign noisy8 5 [1; 1; 0] toy_world = (Ok t, w')
      /\ drawn w' = drawn toy_world ++ xs
      /\ length xs = 5%nat)
  /\ (forall k : Z,
        AttackerDevice_sign
          (mkDevice (p noisy8) k (mu noisy8) (sigma noisy8) (group_op noisy8))
          5 [1; 1; 0] toy_world
        = AttackerDevice_sign noisy8 5 [1; 1; 0] toy_world)
  /\ (exists r w_i qs,
        recover_upto victim8 noisy8 2 8 3 toy_world = (Ok r, w_i)
        /\ queries (snd (round victim8 noisy8 2 8 3 r w_i)) = queries w_i ++ qs
        /\ length qs = (2 * Z.to_nat 2)%nat
        /\ Forall (fun q : Z * list Z => length (snd q) = 4%nat) qs).
Proof.
  apply (C10_sign_accepts_any_length (G := toy) victim8 noisy8 5 [1; 1; 0] 2 8 3
           toy_world).
  - split; [vm_compute; congruence | vm_compute; congruence].
  - split; [vm_compute; congruence | vm_compute; congruence].
  - lia.
Defined.

(** ** Further properties of the timing attack *)

Section MoreProperties.

Context {G : Generators}.

(** *** The register of the group operation *)

(** One iteration, with the register it leaves. *)
Lemma ladder_body_register (self : Device) (fixed cond : Z -> Z) (d : list Z)
    (i : nat) (b res : Z) (delay : Q) (w : World) :
  p self <> 0 ->
  Qle_bool 0 (sigma self) = true ->
  d !! i = Some b ->
  exists delay' w',
    ladder_body self fixed cond d i (res, delay) w
    = (Ok (if decide (b = 1) then cond (fixed res mod p self) mod p self
           else fixed res mod p self, delay'), w').
Proof.
  intros Hp Hs Hb.
  unfold ladder_body, bind, py_mod, py_index, np_random_normal,
    np_random_seed, ret, raise.
  destruct (decide (p self = 0)) as [|_]; [done|].
  rewrite Hs, Hb. cbn.
  destruct (np_gauss (np w)) as [g s1]. cbn.
  destruct (decide (b = 1)) as [->|Hne]; [|by eexists _, _].
  destruct (decide (0 <= cond (fixed res mod p self) mod p self mod 2 ^ 32
                    < 2 ^ 32)) as [_|Hbad];
    [|destruct Hbad; apply mod_seed_ok].
  cbn. destruct (np_gauss (np_init _)) as [g2 s2]. cbn. by eexists _, _.
Qed.

(** The register after [k] iterations is a fold over the first [k]
    bits. *)
Lemma ladder_upto_register (self : Device) (fixed cond : Z -> Z) (m : Z)
    (d : list Z) (k : nat) (w : World) :
  runnable self ->
  (k <= length d)%nat ->
  exists delay w',
    ladder_upto self fixed cond m d k w
    = (Ok (fold_left
             (fun res b =>
                if decide (b = 1) then cond (fixed res mod p self) mod p self
                else fixed res mod p self)
             (take k d) 1, delay), w').
Proof.
  intros [Hp Hs] Hk. apply Qle_bool_iff in Hs.
  unfold ladder_upto, bind at 1, np_random_seed.
  destruct (decide (0 <= m mod 2 ^ 32 < 2 ^ 32)) as [_|Hbad];
    [|destruct Hbad; apply mod_seed_ok].
  generalize (mkWorld (np_init (m mod 2 ^ 32)) (py w) (drawn w) (queries w)).
  intros v. induction k as [|k IH]; [by eexists _, _|].
  destruct IH as (delay & w1 & Hrun); [lia|].
  destruct (lookup_lt_is_Some_2 d k) as [b Hb]; [lia|].
  cbn [for_range]. erewrite bind_ok; [|exact Hrun].
  rewrite (take_S_r _ _ _ Hb), fold_left_app. cbn [fold_left].
  by apply ladder_body_register.
Qed.

Lemma bits_value_snoc (d : list Z) (b : Z) :
  bits_value (d ++ [b])
  = 2 * bits_value d + (if decide (b = 1) then 1 else 0).
Proof. unfold bits_value. by rewrite fold_left_app. Qed.

Lemma bits_value_nonneg (d : list Z) : 0 <= bits_value d.
Proof.
  induction d as [|b d IH] using rev_ind; [done|].
  rewrite bits_value_snoc. destruct (decide (b = 1)); lia.
Qed.

Lemma double_and_add_fold (pr m : Z) (d : list Z) :
  pr <> 0 ->
  fold_left
    (fun res b =>
       if decide (b = 1) then (res * 2 mod pr + m) mod pr else res * 2 mod pr)
    d 1 mod pr
  = (2 ^ Z.of_nat (length d) + m * bits_value d) mod pr.
Proof.
  intros Hp. induction d as [|b d IH] using rev_ind.
  { cbn. by rewrite Z.mul_0_r. }
  rewrite fold_left_app, length_app, bits_value_snoc. cbn [fold_left length].
  rewrite Nat2Z.inj_add, Z.pow_add_r by lia.
  set (r := fold_left _ d 1) in *.
  assert (Hr : r * 2 mod pr = ((2 ^ Z.of_nat (length d) + m * bits_value d) * 2) mod pr).
  { by rewrite <- Z.mul_mod_idemp_l, IH, Z.mul_mod_idemp_l. }
  destruct (decide (b = 1)).
  - rewrite Z.mod_mod, Hr, Z.add_mod_idemp_l by done.
    f_equal. change (2 ^ Z.of_nat 1) with 2. lia.
  - rewrite Z.mod_mod, Hr by done. f_equal. change (2 ^ Z.of_nat 1) with 2. lia.
Qed.

Lemma square_and_mul_fold (pr m : Z) (d : list Z) :
  pr <> 0 ->
  fold_left
    (fun res b =>
       if decide (b = 1) then (res * res mod pr * m) mod pr
       else res * res mod pr)
    d 1 mod pr
  = m ^ bits_value d mod pr.
Proof.
  intros Hp. induction d as [|b d IH] using rev_ind; [done|].
  rewrite fold_left_app, bits_value_snoc. cbn [fold_left].
  pose proof (bits_value_nonneg d) as Hv.
  set (r := fold_left _ d 1) in *.
  assert (Hr : r * r mod pr = (m ^ bits_value d * m ^ bits_value d) mod pr).
  { by rewrite Z.mul_mod, IH, <- Z.mul_mod. }
  destruct (decide (b = 1)).
  - rewrite Z.mod_mod, Hr, Z.mul_mod_idemp_l by done.
    f_equal. rewrite <- Z.pow_add_r by lia.
    rewrite <- (Z.pow_1_r m) at 2. rewrite <- Z.pow_add_r by lia.
    f_equal. lia.
  - rewrite Z.mod_mod, Hr by done. f_equal.
    rewrite Z.add_0_r, <- Z.pow_add_r by lia. f_equal. lia.
Qed.

Lemma register_fold_reduced (fixed cond : Z -> Z) (pr : Z) (d : list Z) :
  pr <> 0 ->
  d <> [] ->
  fold_left
    (fun res b =>
       if decide (b = 1) then cond (fixed res mod pr) mod pr
       else fixed res mod pr) d 1 mod pr
  = fold_left
      (fun res b =>
         if decide (b = 1) then cond (fixed res mod pr) mod pr
         else fixed res mod pr) d 1.
Proof.
  intros Hp Hd. destruct d as [|b d _] using rev_ind; [done|].
  rewrite fold_left_app. cbn [fold_left].
  destruct (decide (b = 1)); by rewrite Z.mod_mod.
Qed.

(** X1. [double_and_add] starts its register at 1, so after the loop
    over a non-empty [d] the register holds
    [(2**len(d) + m * value(d)) % p], where [value(d)] is the number
    the bits spell, most significant first. *)
Theorem X1_double_and_add_register (self : Device) (m : Z) (d : list Z)
    (w : World) :
  runnable self ->
  group_op self = DoubleAndAdd ->
  d <> [] ->
  exists delay w',
    group_op_upto self m d (length d) w
    = (Ok ((2 ^ Z.of_nat (length d) + m * bits_value d) mod p self, delay), w').
Proof.
  intros Hrun Hop Hd. unfold group_op_upto. rewrite Hop. cbn [updates fst snd].
  destruct (ladder_upto_register self (fun res => res * 2)
              (fun res => res + m) m d (length d) w Hrun (le_n _))
    as (delay & w' & Hupto).
  exists delay, w'. rewrite Hupto, firstn_all. do 3 f_equal.
  destruct Hrun as [Hp _].
  rewrite <- (register_fold_reduced (fun res => res * 2) (fun res => res + m))
    by done.
  by apply double_and_add_fold.
Qed.

(** X2. After the loop of [square_and_mul] over a non-empty [d] the
    register holds [m**value(d) % p]. *)
Theorem X2_square_and_mul_register (self : Device) (m : Z) (d : list Z)
    (w : World) :
  runnable self ->
  group_op self = SquareAndMul ->
  d <> [] ->
  exists delay w',
    group_op_upto self m d (length d) w
    = (Ok (m ^ bits_value d mod p self, delay), w').
Proof.
  intros Hrun Hop Hd. unfold group_op_upto. rewrite Hop. cbn [updates fst snd].
  destruct (ladder_upto_register self (fun res => res * res)
              (fun res => res * m) m d (length d) w Hrun (le_n _))
    as (delay & w' & Hupto).
  exists delay, w'. rewrite Hupto, firstn_all. do 3 f_equal.
  destruct Hrun as [Hp _].
  rewrite <- (register_fold_reduced (fun res => res * res) (fun res => res * m))
    by done.
  by apply square_and_mul_fold.
Qed.

(** *** Victim and attacker *)

(** X3. An attacker that signs with the victim's own parameters and
    the true secret measures exactly the victim's timing, whatever
    happened before either call. *)
Theorem X3_attacker_with_secret_matches_victim (victim : VictimDevice)
    (c : Z) (w1 w2 : World) :
  fst (VictimDevice_sign victim c w1)
  = fst (AttackerDevice_sign (base victim) c (secret victim) w2).
Proof.
  unfold VictimDevice_sign, AttackerDevice_sign, bind.
  apply call_group_op_entry_independent.
Qed.

(** *** Exceptions of the group operation *)

Lemma for_range_raise_first {S} (body : nat -> S -> M S) (n : nat) (s : S)
    (w w' : World) (e : exn) :
  body 0%nat s w = (Raise e, w') ->
  for_range (Datatypes.S n) body s w = (Raise e, w').
Proof.
  intros H. induction n as [|n IH]; [done|].
  change (for_range (Datatypes.S (Datatypes.S n)) body s w)
    with (bind (for_range (Datatypes.S n) body s) (body (Datatypes.S n)) w).
  unfold bind. by rewrite IH.
Qed.

(** X4. What makes the group operation raise.  On an empty exponent it
    returns 0 and draws nothing, whatever the device.  On a non-empty
    one it raises [ZeroDivisionError] when the modulus is 0, and
    [ValueError] when the modulus is not 0 and [sigma] is negative; in
    both cases before a single sample is drawn. *)
Theorem X4_group_op_exceptions (self : Device) (m : Z) (d : list Z)
    (w : World) :
  (d = [] ->
   fst (call_group_op self m d w) = Ok 0%Q
   /\ drawn (snd (call_group_op self m d w)) = drawn w)
  /\ (d <> [] -> p self = 0 ->
      fst (call_group_op self m d w) = Raise ZeroDivisionError
      /\ drawn (snd (call_group_op self m d w)) = drawn w)
  /\ (d <> [] -> p self <> 0 -> (sigma self < 0)%Q ->
      fst (call_group_op self m d w) = Raise ValueError
      /\ drawn (snd (call_group_op self m d w)) = drawn w).
Proof.
  assert (Hseed : np_random_seed (m mod 2 ^ 32) w
                  = (Ok tt, mkWorld (np_init (m mod 2 ^ 32)) (py w) (drawn w)
                              (queries w))).
  { unfold np_random_seed.
    destruct (decide (0 <= m mod 2 ^ 32 < 2 ^ 32)) as [_|Hbad];
      [done | destruct Hbad; apply mod_seed_ok]. }
  rewrite call_group_op_upto. unfold group_op_upto, ladder_upto.
  split_and!.
  - intros ->. cbn [length for_range]. unfold bind. by rewrite Hseed.
  - intros Hd Hp. destruct d as [|b d]; [done|]. cbn [length].
    unfold bind. rewrite Hseed.
    erewrite for_range_raise_first; last first.
    { unfold ladder_body, bind, py_mod. by rewrite decide_True. }
    done.
  - intros Hd Hp Hs. destruct d as [|b d]; [done|]. cbn [length].
    unfold bind. rewrite Hseed.
    assert (Qle_bool 0 (sigma self) = false) as Hneg.
    { apply not_true_is_false. rewrite Qle_bool_iff. by apply Qlt_not_le. }
    erewrite for_range_raise_first; last first.
    { unfold ladder_body, bind, py_mod, np_random_normal, ret.
      rewrite decide_False by done. by rewrite Hneg. }
    done.
Qed.

(** *** Degenerate trial counts *)

Lemma round_without_trials (victim : VictimDevice) (attacker : Device)
    (N klen : Z) (r : list Z) (w : World) :
  N < 0 ->
  round victim attacker N klen (length r) r w = (Ok (r ++ [1]), w).
Proof.
  intros HN. unfold round, trials.
  assert (Z.to_nat N = 0%nat) as -> by lia. cbn [for_range].
  unfold variance, py_truediv, py_setitem, bind, ret.
  destruct (decide (N = 0)); [lia|].
  destruct (decide (length r < length (r ++ [0%Z]))%nat) as [_|Hbad];
    [|destruct Hbad; rewrite length_app; cbn; lia].
  rewrite insert_last. reflexivity.
Qed.

(** X5. The trial count [N] is not checked.  With [N = 0] the first
    round divides by zero: the recovery raises [ZeroDivisionError]
    without signing once.  With [N < 0] no trial runs, every round ties
    at variance 0, and the recovery returns [keylen] ones, again without
    signing once. *)
Theorem X5_degenerate_trial_counts (victim : VictimDevice) (attacker : Device)
    (N klen : Z) (w : World) :
  (N = 0 -> 0 < klen ->
   recover victim attacker N klen w = (Raise ZeroDivisionError, w))
  /\ (N < 0 ->
      recover victim attacker N klen w
      = (Ok (replicate (Z.to_nat klen) 1), w)).
Proof.
  unfold recover. split.
  - intros -> Hk. destruct (Z.to_nat klen) as [|n] eqn:Hn; [lia|].
    by apply for_range_raise_first.
  - intros HN. induction (Z.to_nat klen) as [|n IH]; [done|].
    cbn [for_range]. erewrite bind_ok; [|exact IH].
    rewrite replicate_S_end.
    rewrite <- (length_replicate n 1) at 1.
    by apply round_without_trials.
Qed.

(** *** What the recovery returns *)

Lemma choose_bit (var0 var1 : Q) : choose var0 var1 = 0 \/ choose var0 var1 = 1.
Proof. unfold choose. destruct (Qlt_bool var0 var1); auto. Qed.

Lemma recover_shape (victim : VictimDevice)
    (attacker : Device) (N klen : Z) (w : World) :
  runnable (base victim) ->
  runnable attacker ->
  N <> 0 ->
  exists r w' qs,
    recover victim attacker N klen w = (Ok r, w')
    /\ length r = Z.to_nat klen
    /\ Forall (fun b => b = 0 \/ b = 1) r
    /\ queries w' = queries w ++ qs
    /\ length qs = (2 * Z.to_nat N * Z.to_nat klen)%nat.
Proof.
  intros Hv Ha HN. unfold recover.
  induction (Z.to_nat klen) as [|n IH].
  - exists [], w, []. by rewrite app_nil_r.
  - destruct IH as (r & w1 & qs & Hrun & Hlen & Hbits & Hq & Hqlen).
    destruct (round_spec victim attacker N klen r w1 Hv Ha)
      as (b & acc & cs & w2 & _ & Hcs & Hq2 & _ & Hround).
    specialize (Hround HN). rewrite Hlen in Hround.
    destruct (trial_queries_shape r cs) as [Hshape _].
    eexists _, w2, (qs ++ flat_map (trial_queries r) cs).
    cbn [for_range]. erewrite bind_ok; [|exact Hrun].
    split_and!; [exact Hround | | | |].
    + rewrite length_app, Hlen. cbn. lia.
    + apply Forall_app. split; [done|]. apply Forall_singleton, choose_bit.
    + by rewrite Hq2, Hq, (assoc_L (++)).
    + rewrite length_app, Hqlen, Hshape, Hcs. lia.
Qed.

(** X6. With [N <> 0] and runnable devices the recovery returns a list
    of exactly [keylen] bits, after [2 * N * keylen] attacker queries
    ([N] counted as 0 when negative). *)
Theorem X6_recover_returns_keylen_bits (victim : VictimDevice)
    (attacker : Device) (N klen : Z) (w : World) :
  runnable (base victim) ->
  runnable attacker ->
  N <> 0 ->
  exists r w' qs,
    recover victim attacker N klen w = (Ok r, w')
    /\ length r = Z.to_nat klen
    /\ Forall (fun b => b = 0 \/ b = 1) r
    /\ queries w' = queries w ++ qs
    /\ length qs = (2 * Z.to_nat N * Z.to_nat klen)%nat.
Proof. apply recover_shape. Qed.

(** *** The verifier on good and bad input *)

Lemma check_eval (self : VictimDevice) (d : list Z) (w : World) :
  0 < keylen (base self) ->
  (Z.to_nat (keylen (base self)) <= length (secret self))%nat ->
  (Z.to_nat (keylen (base self)) <= length d)%nat ->
  check self d w
  = (Ok (let f := (inject_Z (Z.of_nat (agreeing (secret self) d
                                          (Z.to_nat (keylen (base self)))))
                   / inject_Z (keylen (base self)))%Q in
         if Qlt_bool f (3 # 4) then LOW
         else if Qlt_bool f 1 then PARTIAL else FULL), w).
Proof.
  intros Hn Hs Hd. unfold check.
  erewrite bind_ok; [|by apply matches_spec].
  erewrite bind_ok;
    [|unfold py_truediv; rewrite decide_False by lia; reflexivity].
  cbn zeta. by repeat destruct (Qlt_bool _ _).
Qed.

Lemma agreeing_all (s d : list Z) (n : nat) :
  agreeing s d n = n <-> forall i, (i < n)%nat -> s !! i = d !! i.
Proof.
  induction n as [|n IH].
  - split; [intros _ i Hi; lia | done].
  - rewrite agreeing_S. pose proof (agreeing_le s d n) as Hle.
    destruct (decide (s !! n = d !! n)) as [Heq|Hne].
    + split.
      * intros H i Hi. destruct (decide (i = n)) as [->|]; [done|].
        apply IH; lia.
      * intros H. assert (agreeing s d n = n) as ->; [|lia].
        apply IH. intros i Hi. apply H. lia.
    + split; [lia|]. intros H. destruct Hne. apply H. lia.
Qed.

(** X8. [check] prints the 100% line exactly when the list it is given
    equals the secret on the first [keylen] positions; in particular
    the secret itself is classified FULL. *)
Theorem X8_check_full_iff_equal (self : VictimDevice) (d : list Z)
    (w : World) :
  0 < keylen (base self) ->
  (Z.to_nat (keylen (base self)) <= length (secret self))%nat ->
  (Z.to_nat (keylen (base self)) <= length d)%nat ->
  (check self d w = (Ok FULL, w)
   <-> take (Z.to_nat (keylen (base self))) d
       = take (Z.to_nat (keylen (base self))) (secret self))
  /\ check self (secret self) w = (Ok FULL, w).
Proof.
  intros Hn Hs Hd.
  assert (Hfull : forall d', (Z.to_nat (keylen (base self)) <= length d')%nat ->
    check self d' w = (Ok FULL, w)
    <-> agreeing (secret self) d' (Z.to_nat (keylen (base self)))
        = Z.to_nat (keylen (base self))).
  { intros d' Hd'. rewrite check_eval by done. cbn zeta.
    set (a := agreeing (secret self) d' _).
    pose proof (agreeing_le (secret self) d' (Z.to_nat (keylen (base self))))
      as Hle. fold a in Hle.
    set (f := (inject_Z (Z.of_nat a) / inject_Z (keylen (base self)))%Q).
    assert (Hpos : (0 < inject_Z (keylen (base self)))%Q).
    { change 0%Q with (inject_Z 0). rewrite <- Zlt_Qlt. lia. }
    assert (Hf1 : (f < 1)%Q <-> (a < Z.to_nat (keylen (base self)))%nat).
    { unfold f. split.
      - intros H.
        destruct (decide (a < Z.to_nat (keylen (base self)))%nat) as [|Hge];
          [done|].
        assert (1 <= inject_Z (Z.of_nat a) / inject_Z (keylen (base self)))%Q
          as Hone; [|lra].
        apply Qle_shift_div_l; [done|].
        rewrite Qmult_1_l, <- Zle_Qle. lia.
      - intros H. apply Qlt_shift_div_r; [done|].
        rewrite Qmult_1_l, <- Zlt_Qlt. lia. }
    pose proof (Qlt_bool_iff f (3 # 4)) as H34.
    pose proof (Qlt_bool_iff f 1) as H1.
    destruct (Qlt_bool f (3 # 4)).
    - split; [done|]. intros Ha.
      assert (f < 3 # 4)%Q as Hlt by by apply H34.
      assert (f < 1)%Q as Hlt1 by lra. apply Hf1 in Hlt1. lia.
    - destruct (Qlt_bool f 1).
      + split; [done|]. intros Ha.
        assert (f < 1)%Q as Hlt1 by by apply H1. apply Hf1 in Hlt1. lia.
      + split; [|done]. intros _.
        destruct (decide (a = Z.to_nat (keylen (base self)))) as [|Hne];
          [done|].
        assert (f < 1)%Q as Hlt by (apply Hf1; lia). by apply H1 in Hlt. }
  split.
  - rewrite (Hfull d Hd), agreeing_all. split.
    + intros H. apply list_eq. intros i.
      rewrite !lookup_take. case_decide; [symmetry; by apply H | done].
    + intros H i Hi.
      rewrite <- (lookup_take_lt (secret self) _ i Hi),
        <- (lookup_take_lt d _ i Hi). by rewrite H.
  - apply (Hfull (secret self) Hs), agreeing_all. done.
Qed.

Lemma for_range_raise_at {S} (body : nat -> S -> M S) (k n : nat) (s s' : S)
    (w w' w'' : World) (e : exn) :
  for_range k body s w = (Ok s', w') ->
  body k s' w' = (Raise e, w'') ->
  (k < n)%nat ->
  for_range n body s w = (Raise e, w'').
Proof.
  intros Hk Hbody Hlt. induction Hlt as [|n Hlt IH].
  - cbn [for_range]. by erewrite bind_ok.
  - cbn [for_range]. unfold bind. by rewrite IH.
Qed.

(** X9. [check] does not compare lengths: given a list shorter than
    [keylen] it raises [IndexError] (at the first missing position)
    instead of classifying. *)
Theorem X9_check_short_list_raises (self : VictimDevice) (d : list Z)
    (w : World) :
  (length d < Z.to_nat (keylen (base self)))%nat ->
  (length d < length (secret self))%nat ->
  check self d w = (Raise IndexError, w).
Proof.
  intros Hd Hs. unfold check, bind.
  assert (matches (secret self) d (Z.to_nat (keylen (base self))) w
          = (Raise IndexError, w)) as ->; [|done].
  unfold matches.
  eapply (for_range_raise_at _ (length d)).
  - apply (matches_spec (secret self) d (length d) w); lia.
  - destruct (lookup_lt_is_Some_2 (secret self) (length d)) as [x Hx]; [done|].
    unfold bind, py_index. rewrite Hx. cbn.
    by rewrite (lookup_ge_None_2 d (length d)).
  - done.
Qed.

(** *** The whole script *)

(** X10. [main] runs to completion.  For a key length of the table, a
    [sigma >= 0], a trial count other than 0 and a [random.randint] that
    stays within its bounds, the script raises nothing and ends with a
    recovered list of [keylen] bits and one of the three verdicts. *)
Theorem X10_main_returns (N klen : Z) (mu sigma : Q) (w : World) :
  klen ∈ [8; 16; 32; 64; 128] ->
  (0 <= sigma)%Q ->
  N <> 0 ->
  (forall a b s, a <= b -> a <= fst (py_randint a b s) <= b) ->
  exists recovered v w',
    main_with N klen mu sigma w = (Ok (recovered, v), w')
    /\ length recovered = Z.to_nat klen
    /\ Forall (fun b => b = 0 \/ b = 1) recovered.
Proof.
  intros Hk Hs HN Hrand.
  assert (exists pr, primes !! klen = Some pr /\ 1 <= klen) as (pr & Hpr & Hge).
  { repeat (apply elem_of_cons in Hk as [->|Hk]; [by eexists|]).
    by apply elem_of_nil in Hk. }
  unfold main_with.
  destruct (py_randint 1 4294967295 (py w)) as [seed s] eqn:Hseed.
  pose proof (Hrand 1 4294967295 (py w) ltac:(lia)) as Hrange.
  rewrite Hseed in Hrange. cbn in Hrange.
  erewrite bind_ok; [|unfold random_randint; by rewrite Hseed].
  set (w0 := mkWorld (np w) s (drawn w) (queries w)).
  destruct (VictimDevice_init_spec klen pr seed mu sigma w0 Hpr ltac:(lia))
    as (bs & w1 & Hcoins & Hvic).
  destruct (coins_spec (Z.to_nat (klen - 1))
              (mkWorld (np_init seed) (py w0) (drawn w0) (queries w0)))
    as (bs' & w1' & Hcoins' & Hlen & _).
  rewrite Hcoins in Hcoins'. simplify_eq.
  erewrite bind_ok; [|exact Hvic].
  erewrite bind_ok; [|by apply Device_init_returns].
  set (victim := mkVictim (mkDevice pr klen mu sigma DoubleAndAdd) (1 :: bs')).
  set (attacker := mkDevice pr klen mu sigma DoubleAndAdd).
  assert (Hrun : runnable attacker).
  { eapply Device_init_runnable; [exact Hs|].
    by apply (Device_init_returns klen pr mu sigma w). }
  destruct (recover_shape victim attacker N klen w1' Hrun Hrun HN)
    as (r & w2 & qs & Hrec & Hrlen & Hbits & _).
  erewrite bind_ok; [|exact Hrec].
  assert (Hcheck := check_eval victim r w2).
  erewrite bind_ok; last first.
  { apply Hcheck; [cbn; lia | cbn; lia | rewrite Hrlen; cbn; lia]. }
  by eexists _, _, _.
Qed.

End MoreProperties.

(** ** [egcd] of rsa-fails/common-modulus.py *)

(** The recursive equation of the source. *)
Lemma egcd_unfold (a b : Z) :
  CommonModulus.egcd a b
  = if decide (a = 0) then (b, 0, 1)
    else let '(g, y, x) := CommonModulus.egcd (b mod a) a in
         (g, x - (b / a) * y, y).
Proof.
  rewrite CommonModulus.egcd_equation_1. simpl.
  destruct (decide (a = 0)); [done|]. simpl.
  by destruct (CommonModulus.egcd (b mod a) a) as [[g y] x].
Qed.

Lemma egcd_bezout (a b : Z) :
  match CommonModulus.egcd a b with
  | (g, x, y) => a * x + b * y = g
  end.
Proof.
  remember (Z.abs_nat a) as n eqn:Hn. revert a b Hn.
  induction n as [n IH] using lt_wf_ind. intros a b Hn.
  rewrite egcd_unfold. destruct (decide (a = 0)) as [->|Ha]; [lia|].
  pose proof (Z.mod_bound_or b a Ha) as Hbound.
  specialize (IH (Z.abs_nat (b mod a)) ltac:(lia) (b mod a) a eq_refl).
  destruct (CommonModulus.egcd (b mod a) a) as [[g y] x].
  pose proof (Z.div_mod b a Ha) as Hdm. nia.
Qed.

(** X11. [egcd(a, b)] returns Bezout coefficients: for all integers,
    negative ones included, the triple [(g, x, y)] satisfies
    [a * x + b * y = g]. *)
Theorem X11_egcd_bezout (a b : Z) :
  match CommonModulus.egcd a b with
  | (g, x, y) => a * x + b * y = g
  end.
Proof. apply egcd_bezout. Qed.

(** X12. The first component is a greatest common divisor: its
    absolute value is [gcd(a, b)] for all integers, and it is
    [gcd(a, b)] itself when neither argument is negative. *)
Theorem X12_egcd_gcd (a b : Z) :
  Z.abs (fst (fst (CommonModulus.egcd a b))) = Z.gcd a b
  /\ (0 <= a -> 0 <= b -> fst (fst (CommonModulus.egcd a b)) = Z.gcd a b).
Proof.
  remember (Z.abs_nat a) as n eqn:Hn. revert a b Hn.
  induction n as [n IH] using lt_wf_ind. intros a b Hn.
  rewrite egcd_unfold. destruct (decide (a = 0)) as [->|Ha].
  - pose proof (Z.gcd_0_l b) as H0. cbn [fst]. split; [lia|]. intros _ Hb. lia.
  - pose proof (Z.mod_bound_or b a Ha) as Hbound.
    specialize (IH (Z.abs_nat (b mod a)) ltac:(lia) (b mod a) a eq_refl).
    destruct (CommonModulus.egcd (b mod a) a) as [[g y] x].
    cbn [fst] in *. pose proof (Z.gcd_mod b a Ha) as Hmod.
    destruct IH as [IH1 IH2]. split; [lia|]. intros H0a H0b.
    rewrite IH2; lia.
Qed.

(** X13. When [egcd(a, b)] finds the divisor 1, its second component
    is an inverse of [a] modulo [b] and its third an inverse of [b]
    modulo [a]. *)
Theorem X13_egcd_inverse (a b : Z) :
  fst (fst (CommonModulus.egcd a b)) = 1 ->
  (a * snd (fst (CommonModulus.egcd a b))) mod b = 1 mod b
  /\ (b * snd (CommonModulus.egcd a b)) mod a = 1 mod a.
Proof.
  intros Hg. pose proof (egcd_bezout a b) as Hbez.
  destruct (CommonModulus.egcd a b) as [[g x] y]. cbn [fst snd] in *. subst g.
  split.
  - destruct (decide (b = 0)) as [->|Hb]; [f_equal; lia|].
    replace (a * x) with (1 + (- y) * b) by lia. by apply Z.mod_add.
  - destruct (decide (a = 0)) as [->|Ha]; [f_equal; lia|].
    replace (b * y) with (1 + (- x) * a) by lia. by apply Z.mod_add.
Qed.

(** ** des-sbox-eval/des-sac.py *)

(** The integers [0 .. 63]. *)
Lemma below_64 (r : Z) :
  0 <= r < 64 -> r ∈ (Z.of_nat <$> seq 0 64).
Proof.
  intros Hr. apply list_elem_of_fmap. exists (Z.to_nat r).
  split; [lia|]. apply elem_of_seq. lia.
Qed.

Lemma box_index_low_bits (x : Z) :
  DesSac.box_index x = DesSac.box_index (x mod 64).
Proof.
  change 64 with (2 ^ 6). rewrite <- Z.land_ones by lia.
  unfold DesSac.box_index.
  by rewrite <- !Z.land_assoc.
Qed.

Lemma box_index_range (x : Z) : 0 <= DesSac.box_index x < 64.
Proof.
  rewrite box_index_low_bits.
  pose proof (Z.mod_pos_bound x 64 ltac:(lia)) as Hr.
  apply below_64 in Hr. revert Hr. generalize (x mod 64). intros r Hr.
  assert (Hall : Forall (fun r => 0 <= DesSac.box_index r < 64)
                   (Z.of_nat <$> seq 0 64)).
  { by apply (bool_decide_unpack _). }
  by rewrite Forall_forall in Hall; apply Hall.
Qed.

Lemma py_getitem_in_range {A} (l : list A) (k : Z) :
  0 <= k < Z.of_nat (length l) ->
  exists v, py_getitem l k = Ok v /\ l !! Z.to_nat k = Some v.
Proof.
  intros Hk. unfold py_getitem. cbn zeta.
  destruct (decide (k < 0)); [lia|].
  destruct (decide (0 <= k < Z.of_nat (length l))); [|lia].
  destruct (lookup_lt_is_Some_2 l (Z.to_nat k)) as [v Hv]; [lia|].
  exists v. by rewrite Hv.
Qed.

Lemma apply_box_total (box : list Z) (x : Z) :
  length box = 64%nat ->
  exists v, DesSac.apply_box box x = Ok v /\ v ∈ box.
Proof.
  intros Hlen. pose proof (box_index_range x) as Hr.
  destruct (py_getitem_in_range box (DesSac.box_index x)) as (v & Hv & Hin);
    [lia|].
  exists v. split; [done|]. by eapply list_elem_of_lookup_2.
Qed.

(** X14. [apply_box] never reads outside a 64-entry box: for every
    integer [x], negative or beyond six bits, the index
    [row * 16 + col] lies in [0, 63] and depends only on the six low
    bits of [x], so the call returns an entry of the box. *)
Theorem X14_apply_box_in_range (box : list Z) (x : Z) :
  length box = 64%nat ->
  0 <= DesSac.box_index x < 64
  /\ DesSac.apply_box box x = DesSac.apply_box box (x mod 64)
  /\ exists v, DesSac.apply_box box x = Ok v /\ v ∈ box.
Proof.
  intros Hlen. split; [apply box_index_range|]. split.
  - unfold DesSac.apply_box. by rewrite (box_index_low_bits x).
  - by apply apply_box_total.
Qed.

(** X15. On six-bit inputs the index is a bijection onto [0, 63]:
    every entry of a box is read for exactly one input, the one whose
    two outer bits give the row and whose four inner bits give the
    column. *)
Theorem X15_box_index_bijective (k : Z) :
  0 <= k < 64 ->
  exists x,
    0 <= x < 64
    /\ DesSac.box_index x = k
    /\ x = Z.lor (Z.lor (Z.shiftl (Z.shiftr k 5) 5) (Z.shiftl (Z.land k 15) 1))
             (Z.land (Z.shiftr k 4) 1)
    /\ forall x', 0 <= x' < 64 -> DesSac.box_index x' = k -> x' = x.
Proof.
  intros Hk. apply below_64 in Hk. revert k Hk. apply Forall_forall.
  assert (Hinv : Forall (fun x' =>
            Z.lor (Z.lor (Z.shiftl (Z.shiftr (DesSac.box_index x') 5) 5)
                     (Z.shiftl (Z.land (DesSac.box_index x') 15) 1))
              (Z.land (Z.shiftr (DesSac.box_index x') 4) 1) = x')
            (Z.of_nat <$> seq 0 64)).
  { by apply (bool_decide_unpack _). }
  assert (Hfwd : Forall (fun k =>
            0 <= Z.lor (Z.lor (Z.shiftl (Z.shiftr k 5) 5)
                          (Z.shiftl (Z.land k 15) 1))
                   (Z.land (Z.shiftr k 4) 1) < 64
            /\ DesSac.box_index
                 (Z.lor (Z.lor (Z.shiftl (Z.shiftr k 5) 5)
                           (Z.shiftl (Z.land k 15) 1))
                    (Z.land (Z.shiftr k 4) 1)) = k)
            (Z.of_nat <$> seq 0 64)).
  { by apply (bool_decide_unpack _). }
  eapply Forall_impl; [exact Hfwd|]. intros k [Hrange Hk].
  eexists. split; [exact Hrange|]. split; [exact Hk|]. split; [reflexivity|].
  intros x' Hx' <-. symmetry.
  rewrite Forall_forall in Hinv. apply Hinv. by apply below_64.
Qed.

Lemma land_1_testbit (y : Z) : Z.land y 1 = Z.b2z (Z.testbit y 0).
Proof.
  change 1 with (Z.ones 1) at 1. rewrite Z.land_ones by lia.
  by rewrite Z.bit0_mod.
Qed.

Lemma bit_diff_loop_bits (r : Z) :
  fst (DesSac.bit_diff_loop 4 r)
  = Z.b2z (Z.testbit r 0) + Z.b2z (Z.testbit r 1)
    + Z.b2z (Z.testbit r 2) + Z.b2z (Z.testbit r 3).
Proof.
  unfold DesSac.bit_diff_loop, Nat.iter. cbn [nat_rect fst].
  rewrite !land_1_testbit, !Z.shiftr_shiftr, !Z.shiftr_spec by lia.
  change (0 + (1 + (1 + 1))) with 3. change (0 + (1 + 1)) with 2.
  change (0 + 1) with 1.
  destruct (Z.testbit r 0), (Z.testbit r 1), (Z.testbit r 2), (Z.testbit r 3);
    reflexivity.
Qed.

(** X16. [bit_diff(a, b)] is a quarter of the Hamming distance between
    the four low bits of [a] and [b]; it is symmetric and lies between
    0 and 1. *)
Theorem X16_bit_diff_hamming (a b : Z) :
  DesSac.bit_diff a b
  = (inject_Z (Z.of_nat (length (filter
                                   (fun i => Z.testbit a i <> Z.testbit b i)
                                   [0%Z; 1%Z; 2%Z; 3%Z]))) / 4)%Q
  /\ DesSac.bit_diff a b = DesSac.bit_diff b a
  /\ (0 <= DesSac.bit_diff a b <= 1)%Q.
Proof.
  unfold DesSac.bit_diff. rewrite !bit_diff_loop_bits, !Z.lxor_spec.
  rewrite !filter_cons, filter_nil.
  destruct (Z.testbit a 0), (Z.testbit a 1), (Z.testbit a 2), (Z.testbit a 3),
    (Z.testbit b 0), (Z.testbit b 1), (Z.testbit b 2), (Z.testbit b 3);
    by vm_compute.
Qed.

(** X17. [get_box] guards only the upper bound.  An index at or above
    the number of boxes falls back to the last box; an index in range
    selects its box; a negative index is not rejected but counts from
    the end, as Python indexing does; below [-len] it raises
    [IndexError]. *)
Theorem X17_get_box_bounds {A} (tbl : list A) (idx : Z) :
  tbl <> [] ->
  (Z.of_nat (length tbl) <= idx ->
   exists box, last tbl = Some box /\ DesSac.get_box_of tbl idx = Ok box)
  /\ (0 <= idx < Z.of_nat (length tbl) ->
      exists box,
        tbl !! Z.to_nat idx = Some box /\ DesSac.get_box_of tbl idx = Ok box)
  /\ (- Z.of_nat (length tbl) <= idx < 0 ->
      exists box,
        tbl !! Z.to_nat (idx + Z.of_nat (length tbl)) = Some box
        /\ DesSac.get_box_of tbl idx = Ok box)
  /\ (idx < - Z.of_nat (length tbl) ->
      DesSac.get_box_of tbl idx = Raise IndexError).
Proof.
  intros Hne.
  assert (0 < length tbl)%nat as Hpos by (destruct tbl; [done | cbn; lia]).
  unfold DesSac.get_box_of. split_and!.
  - intros H. destruct (decide (idx >= Z.of_nat (length tbl))); [|lia].
    destruct (py_getitem_in_range tbl (Z.of_nat (length tbl) - 1))
      as (box & Hget & Hlook); [lia|].
    exists box. split; [|done]. rewrite last_lookup.
    by replace (pred (length tbl)) with (Z.to_nat (Z.of_nat (length tbl) - 1))
      by lia.
  - intros H. destruct (decide (idx >= Z.of_nat (length tbl))); [lia|].
    destruct (py_getitem_in_range tbl idx) as (box & Hget & Hlook); [lia|].
    by exists box.
  - intros H. destruct (decide (idx >= Z.of_nat (length tbl))); [lia|].
    unfold py_getitem. cbn zeta.
    destruct (decide (idx < 0)); [|lia].
    destruct (decide (0 <= idx + Z.of_nat (length tbl) < Z.of_nat (length tbl)));
      [|lia].
    destruct (lookup_lt_is_Some_2 tbl (Z.to_nat (idx + Z.of_nat (length tbl))))
      as [x Hx]; [lia|].
    exists x. by rewrite Hx.
  - intros H. destruct (decide (idx >= Z.of_nat (length tbl))); [lia|].
    unfold py_getitem. cbn zeta.
    destruct (decide (idx < 0)); [|lia].
    destruct (decide (0 <= idx + Z.of_nat (length tbl) < Z.of_nat (length tbl)));
      [lia | done].
Qed.

Lemma bit_diff_bounds (a b : Z) : (0 <= DesSac.bit_diff a b <= 1)%Q.
Proof.
  unfold DesSac.bit_diff. rewrite bit_diff_loop_bits.
  destruct (Z.testbit (Z.lxor a b) 0), (Z.testbit (Z.lxor a b) 1),
    (Z.testbit (Z.lxor a b) 2), (Z.testbit (Z.lxor a b) 3); by vm_compute.
Qed.

Lemma total_bounds (xs : list Q) :
  Forall (fun x => 0 <= x <= 1)%Q xs ->
  (0 <= total xs <= inject_Z (Z.of_nat (length xs)))%Q.
Proof.
  induction xs as [|x xs IH] using rev_ind; intros Hall.
  - by vm_compute.
  - rewrite Forall_app, Forall_singleton in Hall. destruct Hall as [Hxs Hx].
    specialize (IH Hxs). rewrite total_snoc, length_app. cbn [length].
    rewrite Nat2Z.inj_add, inject_Z_plus.
    change (inject_Z (Z.of_nat 1)) with 1%Q. lra.
Qed.

Lemma diffs_spec (box : list Z) (x y : Z) (n : nat) :
  length box = 64%nat ->
  exists ds,
    DesSac.diffs box x y n = Ok ds
    /\ length ds = n
    /\ Forall (fun d => 0 <= d <= 1)%Q ds.
Proof.
  intros Hlen. induction n as [|n (ds & Hds & Hn & Hall)]; [by exists []|].
  destruct (apply_box_total box (Z.lxor x (Z.shiftl 1 (Z.of_nat n))) Hlen)
    as (y1 & Hy1 & _).
  exists (ds ++ [DesSac.bit_diff y y1]). cbn [DesSac.diffs].
  rewrite Hds, Hy1. split_and!; [done | rewrite length_app; cbn; lia |].
  apply Forall_app. split; [done|]. apply Forall_singleton, bit_diff_bounds.
Qed.

Lemma test_x_spec (box : list Z) (x : Z) :
  length box = 64%nat ->
  exists t, DesSac.test_x box x = Ok t /\ (0 <= t <= 1)%Q.
Proof.
  intros Hlen. unfold DesSac.test_x.
  destruct (apply_box_total box x Hlen) as (y & Hy & _). rewrite Hy.
  destruct (diffs_spec box x y 6 Hlen) as (ds & Hds & Hn & Hall).
  rewrite Hds. eexists. split; [done|].
  pose proof (total_bounds ds Hall) as Hb. rewrite Hn in Hb.
  change (inject_Z (Z.of_nat 6)) with 6%Q in Hb.
  split.
  - apply Qle_shift_div_l; [done | lra].
  - apply Qle_shift_div_r; [done | lra].
Qed.

Lemma sac_sum_spec (box : list Z) (n : nat) :
  length box = 64%nat ->
  exists tot,
    DesSac.sac_sum box n = Ok tot
    /\ (0 <= tot <= inject_Z (Z.of_nat n))%Q.
Proof.
  intros Hlen. induction n as [|n (tot & Htot & Hb)].
  - exists 0%Q. split; [done | by vm_compute].
  - destruct (test_x_spec box (Z.of_nat n) Hlen) as (t & Ht & Hbt).
    exists (tot + t)%Q. cbn [DesSac.sac_sum]. rewrite Htot, Ht.
    split; [done|]. rewrite Nat2Z.inj_succ, <- Z.add_1_r, inject_Z_plus.
    change (inject_Z 1) with 1%Q. lra.
Qed.

(** X18. On a box of 64 entries, whatever they are, neither [test_x]
    nor [box_sac] raises, and both return a value between 0 and 1. *)
Theorem X18_sac_between_0_and_1 (box : list Z) (x : Z) :
  length box = 64%nat ->
  (exists t, DesSac.test_x box x = Ok t /\ (0 <= t <= 1)%Q)
  /\ (exists v, DesSac.box_sac box = Ok v /\ (0 <= v <= 1)%Q).
Proof.
  intros Hlen. split; [by apply test_x_spec|].
  unfold DesSac.box_sac.
  destruct (sac_sum_spec box 64 Hlen) as (tot & Htot & Hb).
  rewrite Htot. eexists. split; [done|].
  change (inject_Z (Z.of_nat 64)) with 64%Q in Hb.
  split.
  - apply Qle_shift_div_l; [done | lra].
  - apply Qle_shift_div_r; [done | lra].
Qed.

(** ** The zero-noise timing in binary64 *)

Section Rounding.

Context {F : Generator64}.

Lemma repeated_sum_S (x : float) (n : nat) :
  Binary64.repeated_sum x (S n) = (Binary64.repeated_sum x n + x)%float.
Proof.
  unfold Binary64.repeated_sum. by rewrite replicate_S_end, fold_left_app.
Qed.

Lemma bind64_ok {A B} (m : Binary64.M A) (k : A -> Binary64.M B)
    (w w' : Binary64.World) (a : A) :
  m w = (Ok a, w') -> Binary64.bind m k w = k a w'.
Proof. intros H. unfold Binary64.bind. by rewrite H. Qed.

(** With [sigma = 0] a sample that collapses to [mu]. *)
Lemma normal64_zero_noise (self : Binary64.Device) (w : Binary64.World) :
  Binary64.sigma self = 0%float ->
  (forall s : rng64,
     (Binary64.mu self + 0 * fst (np_gauss64 s))%float = Binary64.mu self) ->
  Binary64.np_random_normal (Binary64.mu self) (Binary64.sigma self) w
  = (Ok (Binary64.mu self),
     Binary64.mkWorld (snd (np_gauss64 (Binary64.np w)))
       (Binary64.drawn w ++ [Binary64.mu self])).
Proof.
  intros Hs Hmu. unfold Binary64.np_random_normal. rewrite Hs.
  change (PrimFloat.ltb 0 0) with false. cbv iota.
  specialize (Hmu (Binary64.np w)).
  destruct (np_gauss64 (Binary64.np w)) as [g s']. cbn [fst snd] in *.
  by rewrite Hmu.
Qed.

Lemma ladder64_loop (self : Binary64.Device) (fixed cond : Z -> Z)
    (d : list Z) (k : nat) (w : Binary64.World) :
  Binary64.p self <> 0 ->
  Binary64.sigma self = 0%float ->
  (forall s : rng64,
     (Binary64.mu self + 0 * fst (np_gauss64 s))%float = Binary64.mu self) ->
  (k <= length d)%nat ->
  exists res w',
    Binary64.for_range k (Binary64.ladder_body self fixed cond d) (1, 0%float) w
    = (Ok (res, Binary64.repeated_sum (Binary64.mu self)
                  (k + popcount (take k d))), w')
    /\ Binary64.drawn w'
       = Binary64.drawn w
         ++ replicate (k + popcount (take k d)) (Binary64.mu self).
Proof.
  intros Hp Hs Hmu. induction k as [|k IH]; intros Hk.
  - exists 1, w. by rewrite app_nil_r.
  - destruct IH as (res & w1 & Hrun & Hd); [lia|].
    destruct (lookup_lt_is_Some_2 d k) as [b Hb]; [lia|].
    cbn [Binary64.for_range]. erewrite bind64_ok; [|exact Hrun].
    rewrite (popcount_take_S _ _ _ Hb).
    unfold Binary64.ladder_body.
    erewrite bind64_ok;
      [|unfold Binary64.py_mod; by rewrite decide_False].
    erewrite bind64_ok; [|by apply normal64_zero_noise].
    erewrite bind64_ok; [|unfold Binary64.py_index; by rewrite Hb].
    destruct (decide (b = 1)) as [->|Hne].
    + erewrite bind64_ok;
        [|unfold Binary64.py_mod; by rewrite decide_False].
      erewrite bind64_ok; last first.
      { unfold Binary64.np_random_seed.
        rewrite decide_True by apply mod_seed_ok. reflexivity. }
      erewrite bind64_ok; [|by apply normal64_zero_noise].
      eexists _, _. split.
      * replace (S k + (popcount (take k d) + 1))%nat
          with (S (S (k + popcount (take k d)))) by lia.
        by rewrite !repeated_sum_S.
      * cbn [Binary64.drawn]. rewrite Hd.
        replace (S k + (popcount (take k d) + 1))%nat
          with (S (S (k + popcount (take k d)))) by lia.
        by rewrite !replicate_S_end, <- !(assoc_L (++)).
    + eexists _, _. split.
      * replace (S k + (popcount (take k d) + 0))%nat
          with (S (k + popcount (take k d))) by lia.
        by rewrite repeated_sum_S.
      * cbn [Binary64.drawn]. rewrite Hd.
        replace (S k + (popcount (take k d) + 0))%nat
          with (S (k + popcount (take k d))) by lia.
        by rewrite replicate_S_end, <- (assoc_L (++)).
Qed.

(** C1, amended.  In binary64, with [sigma = 0] and every sample
    [mu + 0 * gauss()] collapsing to [mu], the timing model draws
    [len(d) + popcount(d)] samples equal to [mu] and returns their
    running sum [0 + mu + mu + ...], rounded at every addition; for
    either variant, every challenge and every exponent vector.  That sum
    is the product [mu * (len(d) + popcount(d))] only where no addition
    rounds. *)
Theorem C1_zero_noise_repeated_addition (self : Binary64.Device) (m : Z)
    (d : list Z) (w : Binary64.World) :
  Binary64.p self <> 0 ->
  Binary64.sigma self = 0%float ->
  (forall s : rng64,
     (Binary64.mu self + 0 * fst (np_gauss64 s))%float = Binary64.mu self) ->
  exists w',
    Binary64.call_group_op self m d w
    = (Ok (Binary64.repeated_sum (Binary64.mu self)
             (length d + popcount d)), w')
    /\ Binary64.drawn w'
       = Binary64.drawn w
         ++ replicate (length d + popcount d) (Binary64.mu self).
Proof.
  intros Hp Hs Hmu.
  assert (Hladder : forall fixed cond, exists w',
    Binary64.ladder self fixed cond m d w
    = (Ok (Binary64.repeated_sum (Binary64.mu self)
             (length d + popcount d)), w')
    /\ Binary64.drawn w'
       = Binary64.drawn w
         ++ replicate (length d + popcount d) (Binary64.mu self)).
  { intros fixed cond. unfold Binary64.ladder.
    erewrite bind64_ok; last first.
    { unfold Binary64.np_random_seed.
      rewrite decide_True by apply mod_seed_ok. reflexivity. }
    destruct (ladder64_loop self fixed cond d (length d)
                (Binary64.mkWorld (np_init64 (m mod 2 ^ 32))
                   (Binary64.drawn w)) Hp Hs Hmu (le_n _))
      as (res & w' & Hrun & Hd).
    rewrite firstn_all in Hrun, Hd.
    erewrite bind64_ok; [|exact Hrun]. by exists w'. }
  unfold Binary64.call_group_op, Binary64.double_and_add,
    Binary64.square_and_mul.
  destruct (Binary64.group_op self); apply Hladder.
Qed.

End Rounding.

(** Three 1-bits, [mu = 0.1], [sigma = 0]: six samples of 0.1 add up
    to 0.6, while [0.1 * 6] is the next double, 0.6000000000000001. *)
Lemma C1_counterexample_sum_is_not_product :
  exists t,
    fst (Binary64.call_group_op
           (Binary64.mkDevice 61 8 tenth 0 DoubleAndAdd) 5 [1; 1; 1]
           toy_world64) = Ok t
    /\ Nat.add (length [1; 1; 1]) (popcount [1; 1; 1]) = 6%nat
    /\ t = 0x1.3333333333333p-1%float
    /\ (tenth * 6)%float = 0x1.3333333333334p-1%float
    /\ PrimFloat.eqb t (tenth * 6) = false.
Proof. eexists. split_and!; by vm_compute. Qed.

Lemma C1_zero_noise_repeated_addition_witness :
  exists w',
    Binary64.call_group_op (Binary64.mkDevice 61 8 1000 0 DoubleAndAdd) 5
      [1; 0; 1; 1] toy_world64
    = (Ok (Binary64.repeated_sum 1000 7), w')
    /\ Binary64.drawn w' = Binary64.drawn toy_world64 ++ replicate 7 1000%float.
Proof.
  apply (C1_zero_noise_repeated_addition (F := toy64)
           (Binary64.mkDevice 61 8 1000 0 DoubleAndAdd) 5 [1; 0; 1; 1]
           toy_world64).
  - simpl. lia.
  - reflexivity.
  - intros s. simpl.
    destruct (decide (s mod 3 = 0)); [reflexivity|].
    destruct (decide (s mod 3 = 1)); reflexivity.
Defined.

(** With [main]'s [mu = 1000] nothing rounds: for every count of
    samples a 128-bit exponent can need, the running sum equals the
    product. *)
Example C1_exact_for_mu_1000 :
  forallb
    (fun n => PrimFloat.eqb (Binary64.repeated_sum 1000 n)
                (1000 * PrimFloat.of_uint63 (Uint63.of_Z (Z.of_nat n))))
    (seq 0 257) = true.
Proof. by vm_compute. Qed.

(** ** The further properties on concrete inputs *)

Lemma X1_double_and_add_register_witness :
  exists delay w',
    group_op_upto quiet8 5 [1; 0; 1; 1] (length [1; 0; 1; 1]) toy_world
    = (Ok ((2 ^ Z.of_nat (length [1; 0; 1; 1]) + 5 * bits_value [1; 0; 1; 1])
           mod p quiet8, delay), w').
Proof.
  apply (X1_double_and_add_register (G := toy) quiet8 5 [1; 0; 1; 1] toy_world).
  - split; [vm_compute; congruence | vm_compute; congruence].
  - reflexivity.
  - discriminate.
Defined.

Lemma X2_square_and_mul_register_witness :
  exists delay w',
    group_op_upto (mkDevice 61 8 1000 0 SquareAndMul) 5 [1; 0; 1; 1]
      (length [1; 0; 1; 1]) toy_world
    = (Ok (5 ^ bits_value [1; 0; 1; 1] mod 61, delay), w').
Proof.
  apply (X2_square_and_mul_register (G := toy)
           (mkDevice 61 8 1000 0 SquareAndMul) 5 [1; 0; 1; 1] toy_world).
  - split; [vm_compute; congruence | vm_compute; congruence].
  - reflexivity.
  - discriminate.
Defined.

Lemma X6_recover_returns_keylen_bits_witness :
  exists r w' qs,
    recover victim8 noisy8 2 8 toy_world = (Ok r, w')
    /\ length r = Z.to_nat 8
    /\ Forall (fun b => b = 0 \/ b = 1) r
    /\ queries w' = queries toy_world ++ qs
    /\ length qs = (2 * Z.to_nat 2 * Z.to_nat 8)%nat.
Proof.
  apply (X6_recover_returns_keylen_bits (G := toy) victim8 noisy8 2 8 toy_world).
  - split; [vm_compute; congruence | vm_compute; congruence].
  - split; [vm_compute; congruence | vm_compute; congruence].
  - lia.
Defined.

Lemma X8_check_full_iff_equal_witness :
  (check victim8 [1; 0; 1; 1; 0; 0; 1; 0; 1; 1] toy_world = (Ok FULL, toy_world)
   <-> take (Z.to_nat (keylen (base victim8))) [1; 0; 1; 1; 0; 0; 1; 0; 1; 1]
       = take (Z.to_nat (keylen (base victim8))) (secret victim8))
  /\ check victim8 (secret victim8) toy_world = (Ok FULL, toy_world).
Proof.
  apply (X8_check_full_iff_equal (G := toy) victim8
           [1; 0; 1; 1; 0; 0; 1; 0; 1; 1] toy_world).
  - simpl. lia.
  - simpl. lia.
  - simpl. lia.
Defined.

Lemma X9_check_short_list_raises_witness :
  check victim8 [1; 0; 1] toy_world = (Raise IndexError, toy_world).
Proof.
  apply (X9_check_short_list_raises (G := toy) victim8 [1; 0; 1] toy_world).
  - simpl. lia.
  - simpl. lia.
Defined.

Lemma X10_main_returns_witness :
  exists recovered v w',
    main_with 3 8 1000 50 toy_world = (Ok (recovered, v), w')
    /\ length recovered = Z.to_nat 8
    /\ Forall (fun b => b = 0 \/ b = 1) recovered.
Proof.
  apply (X10_main_returns (G := toy) 3 8 1000 50 toy_world).
  - by apply (bool_decide_unpack _).
  - vm_compute. congruence.
  - lia.
  - intros a b s Hab. simpl.
    pose proof (Z.mod_pos_bound s (b - a + 1) ltac:(lia)). lia.
Defined.

Lemma X13_egcd_inverse_witness :
  (13 * snd (fst (CommonModulus.egcd 13 65537))) mod 65537 = 1 mod 65537
  /\ (65537 * snd (CommonModulus.egcd 13 65537)) mod 13 = 1 mod 13.
Proof.
  apply (X13_egcd_inverse 13 65537). reflexivity.
Defined.

(** The exponents of the script: [egcd(13, 65537)]. *)
Example egcd_13_65537 : CommonModulus.egcd 13 65537 = (1, 15124, -3).
Proof. reflexivity. Qed.

(** Negative arguments: the divisor comes out negative. *)
Example egcd_negative : CommonModulus.egcd (-12) 18 = (-6, 2, 1).
Proof. reflexivity. Qed.

Lemma X14_apply_box_in_range_witness :
  0 <= DesSac.box_index (-3) < 64
  /\ DesSac.apply_box (nth 0 DesSac.sbox []) (-3)
     = DesSac.apply_box (nth 0 DesSac.sbox []) (-3 mod 64)
  /\ exists v,
       DesSac.apply_box (nth 0 DesSac.sbox []) (-3) = Ok v
       /\ v ∈ nth 0 DesSac.sbox [].
Proof.
  apply (X14_apply_box_in_range (nth 0 DesSac.sbox []) (-3)). reflexivity.
Defined.

Lemma X15_box_index_bijective_witness :
  exists x,
    0 <= x < 64
    /\ DesSac.box_index x = 37
    /\ x = Z.lor (Z.lor (Z.shiftl (Z.shiftr 37 5) 5) (Z.shiftl (Z.land 37 15) 1))
             (Z.land (Z.shiftr 37 4) 1)
    /\ forall x', 0 <= x' < 64 -> DesSac.box_index x' = 37 -> x' = x.
Proof. apply (X15_box_index_bijective 37). lia. Defined.

Lemma X17_get_box_bounds_witness :
  (Z.of_nat (length DesSac.sbox) <= 11 ->
   exists box,
     last DesSac.sbox = Some box /\ DesSac.get_box_of DesSac.sbox 11 = Ok box)
  /\ (0 <= 11 < Z.of_nat (length DesSac.sbox) ->
      exists box,
        DesSac.sbox !! Z.to_nat 11 = Some box
        /\ DesSac.get_box_of DesSac.sbox 11 = Ok box)
  /\ (- Z.of_nat (length DesSac.sbox) <= 11 < 0 ->
      exists box,
        DesSac.sbox !! Z.to_nat (11 + Z.of_nat (length DesSac.sbox)) = Some box
        /\ DesSac.get_box_of DesSac.sbox 11 = Ok box)
  /\ (11 < - Z.of_nat (length DesSac.sbox) ->
      DesSac.get_box_of DesSac.sbox 11 = Raise IndexError).
Proof. apply (X17_get_box_bounds DesSac.sbox 11). discriminate. Defined.

(** [get_box] on the table of the script: 8 and above give the last
    box, -1 gives it too, -9 raises. *)
Example get_box_edges :
  DesSac.get_box 8 = DesSac.get_box 7
  /\ DesSac.get_box 100 = DesSac.get_box 7
  /\ DesSac.get_box (-1) = DesSac.get_box 7
  /\ DesSac.get_box (-8) = DesSac.get_box 0
  /\ DesSac.get_box (-9) = Raise IndexError.
Proof. by vm_compute. Qed.

Lemma X18_sac_between_0_and_1_witness :
  (exists t, DesSac.test_x (nth 0 DesSac.sbox []) 5 = Ok t /\ (0 <= t <= 1)%Q)
  /\ (exists v, DesSac.box_sac (nth 0 DesSac.sbox []) = Ok v
                /\ (0 <= v <= 1)%Q).
Proof.
  apply (X18_sac_between_0_and_1 (nth 0 DesSac.sbox []) 5). reflexivity.
Defined.
